(** * playing-card-detect: the detection pipeline of [src/utils/detect.js]

    A shallow embedding of [detectImage], [preprocessing],
    [preprocessVideo], [captureVideo], [detectFrame] and [detectVideo], and
    the properties of the pipeline contract checked against it.

    JavaScript numbers are IEEE 754 binary64 values: they are embedded as
    Rocq's primitive [float], whose operations are the binary64 ones. Array
    indices, tensor dimensions and matrix sizes are integers that the
    program only compares, multiplies and subtracts; they are embedded as
    [nat] or [Z]. *)

From Stdlib Require Import String ZArith List Lia Bool.
From Stdlib Require Import Floats.
Import ListNotations.

(** ** The JavaScript built-ins the pipeline uses *)

Module JS.

Abbreviation number := float.

Definition is_pos_zero (x : number) : bool :=
  match classify x with PZero => true | _ => false end.

Definition is_neg_zero (x : number) : bool :=
  match classify x with NZero => true | _ => false end.

(** [Math.max(...coerced)], ECMA-262 21.3.2.24: start from -Infinity;
    a NaN argument makes the result NaN; a +0 argument replaces a highest
    value of -0; an argument above the highest value replaces it. *)
Fixpoint Math_max_from (highest : number) (coerced : list number) : number :=
  match coerced with
  | [] => highest
  | x :: rest =>
      if is_nan x then nan
      else if is_pos_zero x && is_neg_zero highest then Math_max_from x rest
      else if (highest <? x)%float then Math_max_from x rest
      else Math_max_from highest rest
  end.

Definition Math_max (args : list number) : number :=
  Math_max_from neg_infinity args.

(** [Math.max(a, b)] on integers. *)
Definition Math_max_int (a b : Z) : Z := Z.max a b.

(** [%TypedArray%.prototype.indexOf(searchElement)]: the first index whose
    element is strictly equal ([===]) to [searchElement], or -1. On
    numbers [===] is the IEEE equality: NaN equals nothing, +0 equals -0. *)
Fixpoint indexOf_from (k : Z) (a : list number) (searchElement : number) : Z :=
  match a with
  | [] => (-1)%Z
  | x :: rest =>
      if (x =? searchElement)%float then k
      else indexOf_from (k + 1) rest searchElement
  end.

Definition indexOf (a : list number) (searchElement : number) : Z :=
  indexOf_from 0 a searchElement.

(** [a.slice(start, end)] for non-negative integer bounds: both bounds are
    clamped to the length and an empty range yields an empty array. *)
Definition slice (a : list number) (start end_ : nat) : list number :=
  firstn (end_ - start) (skipn start a).

(** [a.slice(start)]. *)
Definition slice_from (a : list number) (start : nat) : list number :=
  skipn start a.

(** [a[i]] read as an operand of arithmetic: an index out of range yields
    [undefined], which [ToNumber] turns into NaN. *)
Definition get (a : list number) (i : nat) : number := nth i a nan.

(** A non-negative integer below 2^63 as a number (exact below 2^53). *)
Definition of_Z (n : Z) : number := of_uint63 (Uint63.of_Z n).

End JS.

(** A list of numbers none of which is NaN. *)
Definition no_nan (l : list JS.number) : Prop :=
  forall x, In x l -> is_nan x = false.

(** ** Tensors and boxes *)

(** An onnxruntime tensor: its flat data and its shape. *)
Record Tensor := mkTensor {
  data : list JS.number;
  dims : list nat
}.

(** The object pushed on [boxes]: [{label, probability, bounding}]. *)
Record Box := mkBox {
  label : Z;
  probability : JS.number;
  bounding : list JS.number
}.

(** ** The decoding loop of [detectImage] (lines 44-66) *)

Section Decoder.

Variables xRatio yRatio : JS.number.

(** The body of the loop for one row [data] (lines 49-65). *)
Definition decode_row (data : list JS.number) : Box :=
  let box := JS.slice data 0 4 in
  let scores := JS.slice_from data 4 in
  let score := JS.Math_max scores in
  let label := JS.indexOf scores score in
  let x := ((JS.get box 0 - 0.5 * JS.get box 2) * xRatio)%float in
  let y := ((JS.get box 1 - 0.5 * JS.get box 3) * yRatio)%float in
  let w := (JS.get box 2 * xRatio)%float in
  let h := (JS.get box 3 * yRatio)%float in
  {| label := label; probability := score; bounding := [x; y; w; h] |}.

(** Row [idx] of the selected tensor (line 48). A missing [dims[2]] is
    [undefined]: both bounds are then NaN, which [slice] reads as 0. *)
Definition row (selected : Tensor) (idx : nat) : list JS.number :=
  let width := nth 2 (dims selected) 0 in
  JS.slice (data selected) (idx * width) ((idx + 1) * width).

(** [for (let idx = 0; idx < selected.dims[1]; idx++) boxes.push(...)]:
    [remaining] iterations are left when the loop counter is [idx].
    A missing [dims[1]] is [undefined] and the loop does not run. *)
Fixpoint decode_loop (selected : Tensor) (remaining idx : nat)
    (boxes : list Box) : list Box :=
  match remaining with
  | O => boxes
  | S remaining' =>
      decode_loop selected remaining' (S idx)
                  (boxes ++ [decode_row (row selected idx)])
  end.

Definition decode (selected : Tensor) : list Box :=
  decode_loop selected (nth 1 (dims selected) 0) 0 [].

End Decoder.


(** ** The world outside the pipeline

    OpenCV.js, onnxruntime-web and the DOM are not part of the program. A
    call into one of them is a node of the program tree; what the call
    answers, and whether it throws (or, for a promise, rejects), is decided
    by the environment the program runs in. *)

(** The four native buffers of one [detectImage] invocation, named after
    the constants that hold them. *)
Inductive buffer := b_mat | b_matC3 | b_matPad | b_input.

Definition buffer_eqb (a b : buffer) : bool :=
  match a, b with
  | b_mat, b_mat | b_matC3, b_matC3 | b_matPad, b_matPad | b_input, b_input => true
  | _, _ => false
  end.

(** What the program reads of a [cv.Mat]. *)
Record Mat := mkMat {
  rows : Z;
  cols : Z;
  data32F : list JS.number
}.

Record MediaStream := mkStream { stream_id : nat }.

(** An [HTMLVideoElement] as one tick sees it. *)
Record Video := mkVideo {
  videoWidth : Z;
  videoHeight : Z;
  srcObject : option MediaStream
}.

Record Canvas := mkCanvas {
  canvas_width : JS.number;
  canvas_height : JS.number
}.

Record Context2D := mkContext { ctx_canvas : Canvas }.

Inductive ImageSource :=
| ImageElement (id : nat)
| CanvasElement (canvas : Canvas).

Inductive MatType := CV_8UC3.
Inductive ColorConversion := COLOR_RGBA2BGR.
Inductive BorderType := BORDER_CONSTANT.

Inductive exn :=
| TypeError (what : string)   (* raised by the JavaScript code itself *)
| LibraryError (code : nat).  (* thrown or rejected by a library call *)

Inductive Call : Type -> Type :=
(* OpenCV.js *)
| cv_imread (source : ImageSource) : Call Mat
| cv_Mat_new (rows cols : Z) (type : MatType) : Call unit
| cv_Mat_new0 : Call unit
| cv_cvtColor (src dst : Mat) (code : ColorConversion) : Call unit
| cv_copyMakeBorder (src dst : Mat) (top bottom left right : Z)
    (borderType : BorderType) : Call unit
| cv_blobFromImage (image : Mat) (scalefactor : JS.number)
    (size : option nat * option nat) (mean : JS.number * JS.number * JS.number)
    (swapRB crop : bool) : Call Mat
| Mat_delete (b : buffer) : Call unit
(* onnxruntime-web *)
| ort_Tensor (type : string) (data : list JS.number) (dims : option (list nat))
    : Call Tensor
| net_run (images : Tensor) : Call (option Tensor)
| nms_run (detection : option Tensor) (config : Tensor) : Call (option Tensor)
(* renderBox.js and the DOM *)
| renderBoxes (canvas : Canvas) (boxes : list Box) : Call unit
| requestAnimationFrame_detect : Call unit
| canvas_getContext (canvas : Canvas) : Call (option Context2D)
| ctx_clearRect (ctx : Context2D) (x y w h : JS.number) : Call unit
| document_createCanvas (w h : JS.number) : Call Canvas
| ctx_drawImage (ctx : Context2D) (video : Video) (x y w h : JS.number) : Call unit.

(** The calls whose result is a promise that the program awaits. *)
Definition is_await {X} (c : Call X) : bool :=
  match c with
  | net_run _ | nms_run _ _ => true
  | _ => false
  end.

(** A program: returns, throws, or calls out and continues with the answer.
    The code has no [try], so a throw ends the program. *)
Inductive Prog (A : Type) : Type :=
| Ret (a : A)
| Throw (e : exn)
| Do (X : Type) (c : Call X) (k : X -> Prog A).

Arguments Ret {A} a.
Arguments Throw {A} e.
Arguments Do {A X} c k.

Fixpoint bind {A B} (p : Prog A) (f : A -> Prog B) : Prog B :=
  match p with
  | Ret a => f a
  | Throw e => Throw e
  | Do c k => Do c (fun x => bind (k x) f)
  end.

Definition call {X} (c : Call X) : Prog X := Do c Ret.

Declare Scope prog_scope.
Delimit Scope prog_scope with prog.
Notation "x <- p ;; q" := (bind p (fun x => q))
  (at level 61, p at next level, q at level 200, right associativity) : prog_scope.
Notation "p ;;; q" := (bind p (fun _ => q))
  (at level 61, q at level 200, right associativity) : prog_scope.
Open Scope prog_scope.

(** ** The pipeline *)

(** [new Float32Array([...])] stores each number rounded to the nearest
    binary32 value ([Math.fround]). *)
Definition fround (x : JS.number) : JS.number :=
  match Prim2SF x with
  | S754_finite s m e =>
      match binary_round 24 128 s m e with
      | S754_finite s' m' e' => SF2Prim (binary_round prec emax s' m' e')
      | y => SF2Prim y
      end
  | _ => x
  end.

Definition Float32Array (l : list JS.number) : list JS.number := map fround l.

(** [preprocessing] (lines 81-111). [new cv.Mat(rows, cols, type)] yields a
    matrix of that size and [cv.cvtColor] keeps the size of its source, so
    [matC3.rows] and [matC3.cols] are those of [mat]. *)
Definition preprocessing (source : ImageSource) (modelWidth modelHeight : option nat)
    : Prog (Mat * JS.number * JS.number) :=
  mat <- call (cv_imread source) ;;
  call (cv_Mat_new (rows mat) (cols mat) CV_8UC3) ;;;
  let matC3 := mkMat (rows mat) (cols mat) [] in
  call (cv_cvtColor mat matC3 COLOR_RGBA2BGR) ;;;
  let maxSize := JS.Math_max_int (rows matC3) (cols matC3) in
  let xPad := (maxSize - cols matC3)%Z in
  let xRatio := (JS.of_Z maxSize / JS.of_Z (cols matC3))%float in
  let yPad := (maxSize - rows matC3)%Z in
  let yRatio := (JS.of_Z maxSize / JS.of_Z (rows matC3))%float in
  call cv_Mat_new0 ;;;
  let matPad := mkMat 0 0 [] in
  call (cv_copyMakeBorder matC3 matPad 0 yPad 0 xPad BORDER_CONSTANT) ;;;
  input <- call (cv_blobFromImage matPad (1 / 255.0)%float
                   (modelWidth, modelHeight) (0, 0, 0)%float true false) ;;
  call (Mat_delete b_mat) ;;;
  call (Mat_delete b_matC3) ;;;
  call (Mat_delete b_matPad) ;;;
  Ret (input, xRatio, yRatio).

(** [detectImage] (lines 16-72). [session.net] and [session.nms] are the
    two awaited calls; [callback] is the caller's continuation. *)
Definition detectImage (image : ImageSource) (canvas : Canvas)
    (topk iouThreshold scoreThreshold : JS.number) (inputShape : list nat)
    (callback : Prog unit) : Prog unit :=
  let modelWidth := nth_error (skipn 2 inputShape) 0 in
  let modelHeight := nth_error (skipn 2 inputShape) 1 in
  r <- preprocessing image modelWidth modelHeight ;;
  let '(input, xRatio, yRatio) := r in
  tensor <- call (ort_Tensor "float32" (data32F input) (Some inputShape)) ;;
  config <- call (ort_Tensor "float32"
                    (Float32Array [topk; iouThreshold; scoreThreshold]) None) ;;
  output0 <- call (net_run tensor) ;;
  selected <- call (nms_run output0 config) ;;
  match selected with
  | None => Throw (TypeError "selected is undefined")
  | Some selected =>
      let boxes := decode xRatio yRatio selected in
      call (renderBoxes canvas boxes) ;;;
      callback ;;;
      call (Mat_delete b_input) ;;;
      Ret tt
  end.

(** The default [callback = () => {}]. *)
Definition no_callback : Prog unit := Ret tt.

(** [captureVideo] (lines 134-146). *)
Definition captureVideo (video : Video) (scaleFactor : option JS.number)
    : Prog Canvas :=
  let scaleFactor := match scaleFactor with None => 1%float | Some s => s end in
  let w := (JS.of_Z (videoWidth video) * scaleFactor)%float in
  let h := (JS.of_Z (videoHeight video) * scaleFactor)%float in
  canvas <- call (document_createCanvas w h) ;;
  ctx <- call (canvas_getContext canvas) ;;
  match ctx with
  | None => Throw (TypeError "ctx is null")
  | Some ctx => call (ctx_drawImage ctx video 0 0 w h) ;;; Ret canvas
  end.

(** [preprocessVideo] (lines 120-124): [captureVideo(source)] without a
    scale factor, then [preprocessing] of the captured canvas. The [canvas]
    parameter is not used. *)
Definition preprocessVideo (source : Video) (modelWidth modelHeight : option nat)
    (canvas : Canvas) : Prog (Mat * JS.number * JS.number) :=
  image <- captureVideo source None ;;
  preprocessing (CanvasElement image) modelWidth modelHeight.

(** [detectFrame] (lines 148-169). *)
Definition detectFrame (vidSource : Video) (canvas : Canvas)
    (topk iouThreshold scoreThreshold : JS.number) (inputShape : list nat)
    (callback : Prog unit) : Prog unit :=
  imageSource <- captureVideo vidSource None ;;
  detectImage (CanvasElement imageSource) canvas topk iouThreshold scoreThreshold
              inputShape callback.

Definition is_null {A} (o : option A) : bool :=
  match o with None => true | Some _ => false end.

(** The closure [detect] of [detectVideo] (lines 181-198), run on the video
    element as it is when the tick fires. [detectFrame] is called without
    [await]: the tick's work is the work of that call, and nothing handles
    the promise it returns. *)
Definition detect (vidSource : Video) (canvasRef : Canvas)
    (topk iouThreshold scoreThreshold : JS.number) (inputShape : list nat)
    : Prog unit :=
  if (videoWidth vidSource =? 0)%Z && is_null (srcObject vidSource) then
    ctx <- call (canvas_getContext canvasRef) ;;
    match ctx with
    | None => Throw (TypeError "ctx is null")
    | Some ctx =>
        call (ctx_clearRect ctx 0 0 (canvas_width (ctx_canvas ctx))
                            (canvas_height (ctx_canvas ctx))) ;;;
        Ret tt
    end
  else
    detectFrame vidSource canvasRef topk iouThreshold scoreThreshold inputShape
                (call requestAnimationFrame_detect).

(** ** Running a program *)

(** The environment answers every call with a value or with an exception
    (for an awaited call: the promise fulfils or rejects). *)
Definition Env := forall X, Call X -> exn + X.

(** One entry of the trace: a call and its outcome. *)
Inductive Entry : Type :=
| Called (X : Type) (c : Call X) (r : exn + X).

Arguments Called {X} c r.

Definition Trace := list Entry.

(** A whole invocation, awaited calls included: the trace of its calls and
    how its promise settles. *)
Fixpoint run {A} (env : Env) (p : Prog A) : Trace * (exn + A) :=
  match p with
  | Ret a => ([], inr a)
  | Throw e => ([], inl e)
  | Do c k =>
      match env _ c with
      | inl e => ([Called c (inl e)], inl e)
      | inr x => let (tr, r) := run env (k x) in (Called c (inr x) :: tr, r)
      end
  end.

(** Where a program stands after running without interruption. *)
Inductive Status (A : Type) : Type :=
| Finished (r : exn + A)
| Suspended (X : Type) (c : Call X) (k : X -> Prog A).

Arguments Finished {A} r.
Arguments Suspended {A X} c k.

(** A program runs synchronously up to its next [await], where it hands
    control back to the event loop with the call pending. *)
Fixpoint advance {A} (env : Env) (p : Prog A) : Trace * Status A :=
  match p with
  | Ret a => ([], Finished (inr a))
  | Throw e => ([], Finished (inl e))
  | Do c k =>
      if is_await c then ([], Suspended c k)
      else
        match env _ c with
        | inl e => ([Called c (inl e)], Finished (inl e))
        | inr x => let (tr, s) := advance env (k x) in (Called c (inr x) :: tr, s)
        end
  end.

(** *** Reading a trace *)

Definition is_delete (b : buffer) (e : Entry) : bool :=
  match e with
  | Called (Mat_delete b') (inr _) => buffer_eqb b b'
  | _ => false
  end.

(** The call that creates each buffer. *)
Definition is_alloc (b : buffer) (e : Entry) : bool :=
  match e with
  | Called (cv_imread _) (inr _) => buffer_eqb b b_mat
  | Called (cv_Mat_new _ _ _) (inr _) => buffer_eqb b b_matC3
  | Called cv_Mat_new0 (inr _) => buffer_eqb b b_matPad
  | Called (cv_blobFromImage _ _ _ _ _ _) (inr _) => buffer_eqb b b_input
  | _ => false
  end.

Definition count (f : Entry -> bool) (tr : Trace) : nat := length (filter f tr).

(** The argument lists of the completed [renderBoxes] calls. *)
Fixpoint rendered (tr : Trace) : list (list Box) :=
  match tr with
  | [] => []
  | Called (renderBoxes _ boxes) (inr _) :: tr' => boxes :: rendered tr'
  | _ :: tr' => rendered tr'
  end.

(** The ticks a trace schedules: its successful [requestAnimationFrame]
    calls. *)
Definition is_schedule (e : Entry) : bool :=
  match e with
  | Called requestAnimationFrame_detect (inr _) => true
  | _ => false
  end.

Definition is_render (e : Entry) : bool :=
  match e with
  | Called (renderBoxes _ _) (inr _) => true
  | _ => false
  end.

Definition is_clear (e : Entry) : bool :=
  match e with
  | Called (ctx_clearRect _ _ _ _ _) (inr _) => true
  | _ => false
  end.

(** The calls to the inference backend, and those that fulfilled. *)
Definition is_backend (e : Entry) : bool :=
  match e with Called c _ => is_await c end.

Definition is_fulfilled (e : Entry) : bool :=
  match e with
  | Called c (inr _) => is_await c
  | _ => false
  end.

Definition is_nms (e : Entry) : bool :=
  match e with
  | Called (nms_run _ _) _ => true
  | _ => false
  end.

(** A backend call that rejected. *)
Definition is_rejected (e : Entry) : bool :=
  match e with
  | Called c (inl _) => is_await c
  | _ => false
  end.


(** What a fulfilled [session.net.run] call answered, and the [detection]
    that a [session.nms.run] call is given. *)
Definition net_output (e : Entry) : option (option Tensor) :=
  match e with
  | Called (net_run _) (inr output0) => Some output0
  | _ => None
  end.

Definition nms_detection (e : Entry) : option (option Tensor) :=
  match e with
  | Called (nms_run detection _) _ => Some detection
  | _ => None
  end.

(** In a trace, every [session.nms.run] call directly follows a fulfilled
    [session.net.run] call and is given its output ([previous]: the output
    of the entry before the trace, if that was a fulfilled forward pass). *)
Fixpoint nms_follows_net (previous : option (option Tensor)) (tr : Trace) : Prop :=
  match tr with
  | [] => True
  | e :: tr' =>
      (is_nms e = true -> nms_detection e = previous) /\
      nms_follows_net (net_output e) tr'
  end.

(** The buffers a call works on, read off the constants it is handed in the
    source: [new cv.Mat(mat.rows, mat.cols, ...)] reads [mat]; [cv.cvtColor]
    takes [mat] and [matC3]; [cv.copyMakeBorder] takes [matC3] and [matPad];
    [cv.blobFromImage] takes [matPad]; [new Tensor(..., input.data32F,
    inputShape)] takes the memory of [input], and [session.net.run] reads
    the tensor built on it; [b.delete()] takes [b]. *)
Definition uses (b : buffer) (e : Entry) : bool :=
  match e with
  | Called (cv_Mat_new _ _ _) _ => buffer_eqb b b_mat
  | Called (cv_cvtColor _ _ _) _ => buffer_eqb b b_mat || buffer_eqb b b_matC3
  | Called (cv_copyMakeBorder _ _ _ _ _ _ _) _ =>
      buffer_eqb b b_matC3 || buffer_eqb b b_matPad
  | Called (cv_blobFromImage _ _ _ _ _ _) _ => buffer_eqb b b_matPad
  | Called (ort_Tensor _ _ (Some _)) _ => buffer_eqb b b_input
  | Called (net_run _) _ => buffer_eqb b b_input
  | Called (Mat_delete b') _ => buffer_eqb b b'
  | _ => false
  end.

(** No call works on [b] after [b] has been released. *)
Fixpoint no_use_after_delete (b : buffer) (tr : Trace) : bool :=
  match tr with
  | [] => true
  | e :: tr' =>
      (if is_delete b e then forallb (fun e' => negb (uses b e')) tr' else true)
      && no_use_after_delete b tr'
  end.

(** ** The video pump: [detectVideo] on the event loop

    JavaScript runs one job at a time. A job of the pump is either an
    animation-frame callback, which runs [detect] up to its first [await],
    or the settling of an awaited promise, which resumes the suspended
    invocation up to its next [await] or to its end. *)

(** An invocation suspended on a pending backend call. *)
Inductive InFlight : Type :=
| Awaiting (X : Type) (c : Call X) (k : X -> Prog unit).

Arguments Awaiting {X} c k.

Record World := mkWorld {
  scheduled : nat;             (* [requestAnimationFrame(detect)] requests not yet run *)
  in_flight : list InFlight;   (* invocations waiting for the backend *)
  unhandled : list exn;        (* rejected promises that nothing handles *)
  history : Trace              (* every call made so far, with its outcome *)
}.

Definition idle : World := mkWorld 0 [] [] [].

(** The effect of one uninterrupted run on the world. *)
Definition absorb (w : World) (seg : Trace * Status unit) : World :=
  let (tr, st) := seg in
  {| scheduled := scheduled w + count is_schedule tr;
     in_flight := in_flight w ++
                  match st with Suspended c k => [Awaiting c k] | Finished _ => [] end;
     unhandled := unhandled w ++
                  match st with Finished (inl e) => [e] | _ => [] end;
     history := history w ++ tr |}.

Section Pump.

Variable canvasRef : Canvas.
Variables topk iouThreshold scoreThreshold : JS.number.
Variable inputShape : list nat.

(** One call of [detect], on the video as it is at that moment. *)
Definition tick (env : Env) (vidSource : Video) (w : World) : World :=
  absorb w (advance env (detect vidSource canvasRef topk iouThreshold
                                scoreThreshold inputShape)).

(** [detectVideo] (lines 171-201) calls [detect] once and returns. *)
Definition detectVideo (env : Env) (vidSource : Video) : World :=
  tick env vidSource idle.

(** An animation frame runs one requested [detect]. *)
Definition fire (env : Env) (vidSource : Video) (w : World) : World :=
  tick env vidSource
       (mkWorld (pred (scheduled w)) (in_flight w) (unhandled w) (history w)).

(** The pending call [c] of a suspended invocation settles with [r]; the
    others in flight are [before] and [after]. *)
Definition settle (env : Env) (before after : list InFlight) {X} (c : Call X)
    (k : X -> Prog unit) (r : exn + X) (w : World) : World :=
  absorb (mkWorld (scheduled w) (before ++ after) (unhandled w)
                  (history w ++ [Called c r]))
         match r with
         | inl e => ([], Finished (inl e))
         | inr x => advance env (k x)
         end.

Inductive step : World -> World -> Prop :=
| step_fire (env : Env) (vidSource : Video) (w : World) :
    0 < scheduled w -> step w (fire env vidSource w)
| step_settle (env : Env) (w : World) before after X (c : Call X) k
    (r : exn + X) :
    in_flight w = before ++ Awaiting c k :: after ->
    step w (settle env before after c k r w).

(** The worlds a pump can be in. *)
Inductive reachable : World -> Prop :=
| reach_start (env : Env) (vidSource : Video) :
    reachable (detectVideo env vidSource)
| reach_step (w w' : World) :
    reachable w -> step w w' -> reachable w'.

(** The pump has stopped: no job of its own is left to run. *)
Definition stopped (w : World) : Prop := forall w', ~ step w w'.

(** A job in which a pending backend call rejects with [e]. *)
Inductive rejects : World -> exn -> World -> Prop :=
| rejects_settle (env : Env) (w : World) before after X (c : Call X) k (e : exn) :
    in_flight w = before ++ Awaiting c k :: after ->
    rejects w e (settle env before after c k (inl e) w).

(** The oldest pending call settles with what [backend] answers to it. *)
Definition settle_first (env backend : Env) (w : World) : World :=
  match in_flight w with
  | Awaiting c k :: after => settle env [] after c k (backend _ c) w
  | [] => w
  end.

End Pump.

(** ** Shapes of programs

    What the pump's invariant needs to know about [detect] and about every
    continuation of it that can be waiting on the backend. *)

Definition is_raf {X} (c : Call X) : bool :=
  match c with requestAnimationFrame_detect => true | _ => false end.

Definition is_renderBoxes {X} (c : Call X) : bool :=
  match c with renderBoxes _ _ => true | _ => false end.

Definition is_raf_entry (e : Entry) : bool :=
  match e with Called c _ => is_raf c end.

(** A program that neither awaits nor requests a frame. *)
Inductive quiet {A} : Prog A -> Prop :=
| quiet_ret a : quiet (Ret a)
| quiet_throw e : quiet (Throw e)
| quiet_do X (c : Call X) k :
    is_await c = false -> is_raf c = false ->
    (forall x, quiet (k x)) -> quiet (Do c k).

(** [orderly after_render p]: on every path of [p] a frame is requested at
    most once, only directly after a completed [renderBoxes] call
    ([after_render] tells whether [p] starts there), and with no [await]
    after it. *)
Inductive orderly {A} : bool -> Prog A -> Prop :=
| orderly_ret b a : orderly b (Ret a)
| orderly_throw b e : orderly b (Throw e)
| orderly_await b X (c : Call X) k :
    is_await c = true ->
    (forall x, orderly false (k x)) -> orderly b (Do c k)
| orderly_raf X (c : Call X) k :
    is_raf c = true ->
    (forall x, quiet (k x)) -> orderly true (Do c k)
| orderly_call b X (c : Call X) k :
    is_await c = false -> is_raf c = false ->
    (forall x, orderly (is_renderBoxes c) (k x)) -> orderly b (Do c k).

(** In a trace, every frame request directly follows a completed render
    ([after_render]: the trace continues one that ended with a render). *)
Fixpoint raf_follows_render (after_render : bool) (tr : Trace) : Prop :=
  match tr with
  | [] => True
  | e :: tr' =>
      (is_raf_entry e = true -> after_render = true) /\
      raf_follows_render (is_render e) tr'
  end.

Definition is_clearRect {X} (c : Call X) : bool :=
  match c with ctx_clearRect _ _ _ _ _ => true | _ => false end.

(** [driven b p]: every path on which [p] ends without an exception has
    requested a frame or cleared a canvas ([b]: that has happened before
    [p]), and no path awaits after having done so. *)
Inductive driven {A} : bool -> Prog A -> Prop :=
| driven_ret a : driven true (Ret a)
| driven_throw b e : driven b (Throw e)
| driven_await X (c : Call X) k :
    is_await c = true ->
    (forall x, driven false (k x)) -> driven false (Do c k)
| driven_call b X (c : Call X) k :
    is_await c = false ->
    (forall x, driven (b || is_raf c || is_clearRect c) (k x)) ->
    driven b (Do c k).

(** ** A backend and a page to run the pipeline against *)

Module Fixture.

Definition selected : Tensor :=
  mkTensor [100; 50; 40; 20; 0.5; 0.5;
            10; 20; 4; 8; 0.125; 0.75]%float [1; 2; 6].

Definition canvas : Canvas := mkCanvas 640 480.

Definition video : Video := mkVideo 4 8 (Some (mkStream 1)).

Definition ended_video : Video := mkVideo 0 0 None.

(** Every call succeeds; the image is [rows] x [cols]; the backend
    selects [sel]. *)
Definition env_with (rows cols : Z) (sel : Tensor) : Env :=
  fun X (c : Call X) =>
    match c in Call X return exn + X with
    | cv_imread _ => inr (mkMat rows cols [])
    | cv_Mat_new _ _ _ => inr tt
    | cv_Mat_new0 => inr tt
    | cv_cvtColor _ _ _ => inr tt
    | cv_copyMakeBorder _ _ _ _ _ _ _ => inr tt
    | cv_blobFromImage _ _ _ _ _ _ => inr (mkMat 0 0 [0; 0; 0]%float)
    | Mat_delete _ => inr tt
    | ort_Tensor _ d (Some sh) => inr (mkTensor d sh)
    | ort_Tensor _ d None => inr (mkTensor d [length d])
    | net_run t => inr (Some t)
    | nms_run _ _ => inr (Some sel)
    | renderBoxes _ _ => inr tt
    | requestAnimationFrame_detect => inr tt
    | canvas_getContext cv => inr (Some (mkContext cv))
    | ctx_clearRect _ _ _ _ _ => inr tt
    | document_createCanvas w h => inr (mkCanvas w h)
    | ctx_drawImage _ _ _ _ _ _ => inr tt
    end.

Definition env : Env := env_with 4 2 selected.

(** The same, with a forward pass that rejects. *)
Definition env_net_rejects : Env :=
  fun X (c : Call X) =>
    match c in Call X return exn + X with
    | net_run _ => inl (LibraryError 1)
    | c' => env _ c'
    end.

Definition image : ImageSource := ImageElement 0.

Definition inputShape : list nat := [1; 3; 640; 640].

(** The pump right after [detectVideo] returns: the forward pass of the
    first frame is pending. *)
Definition started : World :=
  detectVideo canvas 100%float 0.5%float 0.25%float inputShape env video.

(** The forward pass of the first frame rejects. *)
Definition net_rejected : World :=
  settle_first env env_net_rejects started.

(** Both backend calls of the first frame fulfil. *)
Definition frame_done : World :=
  settle_first env env
    (settle_first env env started).

(** The next animation frame finds the video ended. *)
Definition ended : World :=
  fire canvas 100%float 0.5%float 0.25%float inputShape env ended_video frame_done.


(** The same as [env], with an NMS output that has no [selected]. *)
Definition env_without_selected : Env :=
  fun X (c : Call X) =>
    match c in Call X return exn + X with
    | nms_run _ _ => inr None
    | c' => env _ c'
    end.

(** The same as [env], with canvases that give no 2D context. *)
Definition env_without_context : Env :=
  fun X (c : Call X) =>
    match c in Call X return exn + X with
    | canvas_getContext _ => inr None
    | c' => env _ c'
    end.

End Fixture.

(** A trace in which no native buffer is created or released. *)
Definition buffer_free (tr : Trace) : Prop :=
  forall b, count (is_alloc b) tr = 0 /\ count (is_delete b) tr = 0.

(** ** Integers as binary64 numbers *)

(** The mantissa and the exponent of the binary64 number that represents a
    positive integer below 2^53: [n = mantissa n * 2 ^ exponent n] with
    [2^52 <= mantissa n < 2^53]. *)
Definition mantissa (n : Z) : Z := (n * 2 ^ (52 - Z.log2 n))%Z.
Definition exponent (n : Z) : Z := (Z.log2 n - 52)%Z.

(** The last two steps of [binary_round_aux]: round to nearest even, then
    renormalise. *)
Definition round_finish (sx : bool) (mrs' : shr_record) (e' : Z) : spec_float :=
  let '(mrs'', e'') :=
    shr_fexp prec emax
      (round_nearest_even (shr_m mrs') (loc_of_shr_record mrs')) e' loc_Exact in
  match shr_m mrs'' with
  | Z0 => S754_zero sx
  | Zpos m =>
      if Z.leb e'' (emax - prec) then S754_finite sx m e'' else S754_infinity sx
  | _ => S754_nan
  end.

(** The size of the matrix that [cv.copyMakeBorder] writes. *)
Definition border_size (src : Mat) (top bottom left right : Z) : Z * Z :=
  (rows src + top + bottom, cols src + left + right)%Z.

(** ** The pump's invariant *)

(** Whatever the pending call of a suspended invocation answers, what is
    left of the invocation is orderly. *)
Definition resumable (f : InFlight) : Prop :=
  match f with Awaiting c k => is_await c = true /\ forall x, orderly false (k x) end.

Definition pump_invariant (w : World) : Prop :=
  scheduled w + length (in_flight w) <= 1 /\
  Forall resumable (in_flight w) /\
  raf_follows_render false (history w).

(** ** What keeps the pump going *)

(** Whatever the pending call of a suspended invocation answers, what is
    left of the invocation is driven. *)
Definition continues (f : InFlight) : Prop :=
  match f with Awaiting c k => forall x, driven false (k x) end.

(** A tick is scheduled or an invocation is in flight, unless a rejection
    went unhandled or the canvas was cleared. *)
Definition pump_alive (w : World) : Prop :=
  Forall continues (in_flight w) /\
  (1 <= scheduled w + length (in_flight w) \/
   unhandled w <> [] \/
   1 <= count is_clear (history w)).


(** An environment in which every call succeeds, every canvas gives its 2D
    context and every NMS output has its [selected] tensor. *)
Definition fulfils (env : Env) : Prop :=
  (forall X (c : Call X), exists x, env X c = inr x) /\
  (forall canvas, exists ctx, env _ (canvas_getContext canvas) = inr (Some ctx)) /\
  (forall detection config,
      exists selected, env _ (nms_run detection config) = inr (Some selected)).

(** The two backend calls of the frame in flight fulfil, with what [env]
    answers to them. *)
Definition finish_frame (env : Env) (w : World) : World :=
  settle_first env env (settle_first env env w).

(** The pump after its first [n + 1] frames, on a video and a backend that
    stay the same: [detectVideo], then [n] times an animation frame, each
    followed by the fulfilment of the frame's backend calls. *)
Fixpoint frames (canvasRef : Canvas) (topk iouThreshold scoreThreshold : JS.number)
    (inputShape : list nat) (env : Env) (vidSource : Video) (n : nat) : World :=
  match n with
  | O =>
      finish_frame env
        (detectVideo canvasRef topk iouThreshold scoreThreshold inputShape
                     env vidSource)
  | S n' =>
      finish_frame env
        (fire canvasRef topk iouThreshold scoreThreshold inputShape env vidSource
              (frames canvasRef topk iouThreshold scoreThreshold inputShape
                      env vidSource n'))
  end.

(** * Properties *)

(** ** Running sequenced programs *)

Lemma run_bind {A B} (env : Env) (p : Prog A) (f : A -> Prog B) :
  run env (bind p f) =
  match run env p with
  | (tr, inl e) => (tr, inl e)
  | (tr, inr a) => let (tr', r) := run env (f a) in (tr ++ tr', r)
  end.
Proof.
  induction p as [a | e | X c k IH]; simpl.
  - destruct (run env (f a)); reflexivity.
  - reflexivity.
  - destruct (env X c) as [e | x]; [reflexivity |].
    rewrite IH. destruct (run env (k x)) as [tr [e | a]]; [reflexivity |].
    destruct (run env (f a)); reflexivity.
Qed.

Lemma run_call_bind {X B} (env : Env) (c : Call X) (f : X -> Prog B) :
  run env (bind (call c) f) =
  match env _ c with
  | inl e => ([Called c (inl e)], inl e)
  | inr x => let (tr, r) := run env (f x) in (Called c (inr x) :: tr, r)
  end.
Proof. unfold call; simpl. destruct (env X c); reflexivity. Qed.

(** ** The decoding loop *)

Lemma decode_loop_map xRatio yRatio selected n idx boxes :
  decode_loop xRatio yRatio selected n idx boxes =
  boxes ++ map (fun i => decode_row xRatio yRatio (row selected i)) (seq idx n).
Proof.
  revert idx boxes. induction n as [| n IH]; intros idx boxes; simpl.
  - now rewrite app_nil_r.
  - rewrite IH, <- app_assoc. reflexivity.
Qed.

Lemma decode_map xRatio yRatio selected :
  decode xRatio yRatio selected =
  map (fun i => decode_row xRatio yRatio (row selected i))
      (seq 0 (nth 1 (dims selected) 0)).
Proof. unfold decode. now rewrite decode_loop_map. Qed.

Lemma decode_length xRatio yRatio selected :
  length (decode xRatio yRatio selected) = nth 1 (dims selected) 0.
Proof. now rewrite decode_map, length_map, length_seq. Qed.

Lemma decode_nth xRatio yRatio selected idx :
  idx < nth 1 (dims selected) 0 ->
  nth_error (decode xRatio yRatio selected) idx =
  Some (decode_row xRatio yRatio (row selected idx)).
Proof.
  intros H. rewrite decode_map.
  rewrite nth_error_map, nth_error_seq.
  destruct (Nat.ltb_spec idx (nth 1 (dims selected) 0)); [reflexivity | lia].
Qed.

Lemma decode_row_bounding xRatio yRatio cx cy w h scores :
  bounding (decode_row xRatio yRatio (cx :: cy :: w :: h :: scores)) =
  [ (cx - 0.5 * w) * xRatio; (cy - 0.5 * h) * yRatio; w * xRatio; h * yRatio ]%float.
Proof. reflexivity. Qed.

(** ** Successful runs of [preprocessing] and [detectImage] *)

Ltac run_next H env :=
  rewrite run_call_bind in H;
  match type of H with
  | context [env ?X ?c] =>
      let E := fresh "Hcall" in
      destruct (env X c) eqn:E; [discriminate H |]
  end.

Lemma preprocessing_returns env source mw mh tr input xRatio yRatio :
  run env (preprocessing source mw mh) = (tr, inr (input, xRatio, yRatio)) ->
  exists mat,
    env _ (cv_imread source) = inr mat /\
    let matC3 := mkMat (rows mat) (cols mat) [] in
    let maxSize := Z.max (rows mat) (cols mat) in
    xRatio = (JS.of_Z maxSize / JS.of_Z (cols mat))%float /\
    yRatio = (JS.of_Z maxSize / JS.of_Z (rows mat))%float /\
    tr = [ Called (cv_imread source) (inr mat);
           Called (cv_Mat_new (rows mat) (cols mat) CV_8UC3) (inr tt);
           Called (cv_cvtColor mat matC3 COLOR_RGBA2BGR) (inr tt);
           Called cv_Mat_new0 (inr tt);
           Called (cv_copyMakeBorder matC3 (mkMat 0 0 []) 0 (maxSize - rows mat)
                                     0 (maxSize - cols mat) BORDER_CONSTANT) (inr tt);
           Called (cv_blobFromImage (mkMat 0 0 []) (1 / 255.0)%float (mw, mh)
                                    (0, 0, 0)%float true false) (inr input);
           Called (Mat_delete b_mat) (inr tt);
           Called (Mat_delete b_matC3) (inr tt);
           Called (Mat_delete b_matPad) (inr tt) ].
Proof.
  unfold preprocessing, JS.Math_max_int. cbv zeta. intros H.
  run_next H env. run_next H env. run_next H env. run_next H env.
  run_next H env. run_next H env. run_next H env. run_next H env.
  run_next H env.
  simpl in H. inversion H; subst; clear H.
  repeat match goal with u : unit |- _ => destruct u end.
  eexists; split; [first [eassumption | reflexivity] |]. simpl. auto.
Qed.

Lemma detectImage_returns env image canvas topk iouThreshold scoreThreshold
    inputShape callback tr :
  run env (detectImage image canvas topk iouThreshold scoreThreshold inputShape
                       callback) = (tr, inr tt) ->
  exists trp input xRatio yRatio tensor config output0 selected trc,
    run env (preprocessing image (nth_error (skipn 2 inputShape) 0)
                           (nth_error (skipn 2 inputShape) 1))
      = (trp, inr (input, xRatio, yRatio)) /\
    env _ (nms_run output0 config) = inr (Some selected) /\
    run env callback = (trc, inr tt) /\
    tr = trp ++
         [ Called (ort_Tensor "float32" (data32F input) (Some inputShape)) (inr tensor);
           Called (ort_Tensor "float32"
                     (Float32Array [topk; iouThreshold; scoreThreshold]) None)
                  (inr config);
           Called (net_run tensor) (inr output0);
           Called (nms_run output0 config) (inr (Some selected));
           Called (renderBoxes canvas (decode xRatio yRatio selected)) (inr tt) ] ++
         trc ++ [ Called (Mat_delete b_input) (inr tt) ].
Proof.
  unfold detectImage. cbv zeta. intros H.
  rewrite run_bind in H.
  destruct (run env (preprocessing image _ _)) as [trp [e | [[input xRatio] yRatio]]];
    [discriminate H |].
  destruct (run env (bind (call (ort_Tensor _ _ _)) _)) as [tr' r'] eqn:H'.
  inversion H; subst; clear H.
  run_next H' env. run_next H' env. run_next H' env. run_next H' env.
  destruct o0 as [selected |]; [| discriminate H'].
  run_next H' env.
  rewrite run_bind in H'.
  destruct (run env callback) as [trc [e | []]]; [discriminate H' |].
  run_next H' env.
  simpl in H'. inversion H'; subst; clear H'.
  repeat match goal with u : unit |- _ => destruct u end.
  do 9 eexists. split; [reflexivity |]. split; [eassumption |].
  split; [reflexivity |]. simpl. reflexivity.
Qed.

Lemma rendered_app tr1 tr2 : rendered (tr1 ++ tr2) = rendered tr1 ++ rendered tr2.
Proof.
  induction tr1 as [| [X c r] tr1 IH]; [reflexivity |].
  destruct c; simpl; try exact IH.
  destruct r; simpl; [exact IH | now rewrite IH].
Qed.

Lemma preprocessing_renders_nothing env source mw mh tr r :
  run env (preprocessing source mw mh) = (tr, inr r) -> rendered tr = [].
Proof.
  destruct r as [[input xRatio] yRatio]. intros H.
  apply preprocessing_returns in H. destruct H as (mat & _ & H).
  cbv zeta in H. destruct H as (_ & _ & ->). reflexivity.
Qed.

(** A completed invocation has handed to [renderBoxes], as its first
    render, the decoded rows of the tensor that the NMS call selected,
    scaled by the ratios that [preprocessing] returned. *)
Lemma detectImage_renders env image canvas topk iouThreshold scoreThreshold
    inputShape callback tr :
  run env (detectImage image canvas topk iouThreshold scoreThreshold inputShape
                       callback) = (tr, inr tt) ->
  exists trp input xRatio yRatio output0 config selected,
    run env (preprocessing image (nth_error (skipn 2 inputShape) 0)
                           (nth_error (skipn 2 inputShape) 1))
      = (trp, inr (input, xRatio, yRatio)) /\
    env _ (nms_run output0 config) = inr (Some selected) /\
    hd_error (rendered tr) = Some (decode xRatio yRatio selected).
Proof.
  intros H. apply detectImage_returns in H.
  destruct H as (trp & input & xRatio & yRatio & tensor & config & output0 &
                 selected & trc & Hp & Hn & _ & ->).
  exists trp, input, xRatio, yRatio, output0, config, selected.
  split; [exact Hp |]. split; [exact Hn |].
  rewrite rendered_app, (preprocessing_renders_nothing _ _ _ _ _ _ Hp). reflexivity.
Qed.

(** ** The order of binary64 numbers

    Facts about [<?], [<=?] and [=?] on numbers, from their specification
    on [spec_float]. *)

Ltac cmp_cases :=
  repeat match goal with
  | H : context [Z.compare ?a ?b] |- _ => destruct (Z.compare_spec a b)
  | |- context [Z.compare ?a ?b] => destruct (Z.compare_spec a b)
  | H : context [Pos.compare ?a ?b] |- _ => destruct (Pos.compare_spec a b)
  | |- context [Pos.compare ?a ?b] => destruct (Pos.compare_spec a b)
  end.

Ltac sf_cases x := destruct x as [[|] | [|] | | [|] ? ?].

Ltac sf_order :=
  unfold SFleb, SFltb, SFeqb, SFcompare;
  change (Pos.compare_cont Eq) with Pos.compare;
  intros; cmp_cases; simpl in *;
  try discriminate; try reflexivity; try congruence; try lia.

Lemma SFleb_trans x y z :
  SFleb x y = true -> SFleb y z = true -> SFleb x z = true.
Proof. sf_cases x; sf_cases y; sf_cases z; sf_order. Qed.

Lemma SFltb_false_leb x y :
  x <> S754_nan -> y <> S754_nan -> SFltb x y = false -> SFleb y x = true.
Proof. sf_cases x; sf_cases y; sf_order. Qed.

Lemma SFltb_leb x y : SFltb x y = true -> SFleb x y = true.
Proof. sf_cases x; sf_cases y; sf_order. Qed.

Lemma SFleb_antisym x y :
  SFleb x y = true -> SFleb y x = true -> SFeqb x y = true.
Proof. sf_cases x; sf_cases y; sf_order. Qed.

Lemma SFeqb_refl x : x <> S754_nan -> SFeqb x x = true.
Proof. sf_cases x; sf_order. Qed.

Lemma SFeqb_nan x : SFeqb x x = true -> x <> S754_nan.
Proof. sf_cases x; sf_order. Qed.

Lemma SFleb_neg_infinity x : x <> S754_nan -> SFleb (S754_infinity true) x = true.
Proof. sf_cases x; sf_order. Qed.

Lemma not_nan_spec x : is_nan x = false <-> Prim2SF x <> S754_nan.
Proof.
  unfold is_nan. rewrite eqb_spec, negb_false_iff. split.
  - apply SFeqb_nan.
  - apply SFeqb_refl.
Qed.

Lemma leb_trans x y z :
  (x <=? y)%float = true -> (y <=? z)%float = true -> (x <=? z)%float = true.
Proof. rewrite !leb_spec. apply SFleb_trans. Qed.

Lemma ltb_leb x y : (x <? y)%float = true -> (x <=? y)%float = true.
Proof. rewrite ltb_spec, leb_spec. apply SFltb_leb. Qed.

Lemma ltb_false_leb x y :
  is_nan x = false -> is_nan y = false ->
  (x <? y)%float = false -> (y <=? x)%float = true.
Proof.
  rewrite !not_nan_spec, ltb_spec, leb_spec. apply SFltb_false_leb.
Qed.

Lemma leb_antisym x y :
  (x <=? y)%float = true -> (y <=? x)%float = true -> (x =? y)%float = true.
Proof. rewrite !leb_spec, eqb_spec. apply SFleb_antisym. Qed.

Lemma leb_refl x : is_nan x = false -> (x <=? x)%float = true.
Proof.
  intros H. apply ltb_false_leb; try exact H.
  rewrite ltb_spec. apply not_nan_spec in H.
  destruct (Prim2SF x) as [[|] | [|] | | [|] m e]; try reflexivity;
    try congruence; unfold SFltb, SFcompare;
    change (Pos.compare_cont Eq) with Pos.compare;
    rewrite Z.compare_refl, Pos.compare_refl; reflexivity.
Qed.

Lemma neg_infinity_leb x : is_nan x = false -> (neg_infinity <=? x)%float = true.
Proof.
  rewrite not_nan_spec, leb_spec. apply SFleb_neg_infinity.
Qed.

Lemma neg_zero_leb_pos_zero h x :
  JS.is_neg_zero h = true -> JS.is_pos_zero x = true -> (h <=? x)%float = true.
Proof.
  unfold JS.is_neg_zero, JS.is_pos_zero. rewrite !classify_spec, leb_spec.
  unfold SF64classify, SFclassify.
  destruct (Prim2SF h) as [[|] | [|] | | [|] mh eh];
    try discriminate;
    try (destruct (Z.eqb _ _); discriminate);
    destruct (Prim2SF x) as [[|] | [|] | | [|] mx ex];
    try discriminate;
    try (destruct (Z.eqb _ _); discriminate); reflexivity.
Qed.

(** ** [Math.max] and [indexOf] *)

Lemma Math_max_from_spec l :
  no_nan l ->
  forall h, is_nan h = false ->
  let r := JS.Math_max_from h l in
  (h <=? r)%float = true /\
  (forall x, In x l -> (x <=? r)%float = true) /\
  (r = h \/ In r l).
Proof.
  induction l as [| x rest IH]; intros Hl h Hh; simpl.
  - split; [apply leb_refl; exact Hh |]. split; [intros x [] | left; reflexivity].
  - assert (Hx : is_nan x = false) by (apply Hl; left; reflexivity).
    assert (Hrest : no_nan rest) by (intros y Hy; apply Hl; right; exact Hy).
    rewrite Hx.
    destruct (JS.is_pos_zero x && JS.is_neg_zero h) eqn:Hz;
      [| destruct (h <? x)%float eqn:Hlt].
    + apply andb_true_iff in Hz. destruct Hz as [Hpz Hnz].
      destruct (IH Hrest x Hx) as (Hxr & Hall & Hin).
      split; [| split].
      * eapply leb_trans; [apply neg_zero_leb_pos_zero; eassumption | exact Hxr].
      * intros y [<- | Hy]; [exact Hxr | apply Hall; exact Hy].
      * right. destruct Hin as [-> | Hin]; [left; reflexivity | right; exact Hin].
    + destruct (IH Hrest x Hx) as (Hxr & Hall & Hin).
      split; [| split].
      * eapply leb_trans; [apply ltb_leb; exact Hlt | exact Hxr].
      * intros y [<- | Hy]; [exact Hxr | apply Hall; exact Hy].
      * right. destruct Hin as [-> | Hin]; [left; reflexivity | right; exact Hin].
    + destruct (IH Hrest h Hh) as (Hhr & Hall & Hin).
      split; [exact Hhr |]. split.
      * intros y [<- | Hy]; [| apply Hall; exact Hy].
        apply leb_trans with (y := h); [apply ltb_false_leb; assumption | exact Hhr].
      * destruct Hin as [-> | Hin]; [left; reflexivity | right; right; exact Hin].
Qed.

(** On a non-empty list without NaN, [Math.max] is an upper bound of the
    list that some element equals. *)
Lemma Math_max_spec l :
  l <> [] -> no_nan l ->
  (forall x, In x l -> (x <=? JS.Math_max l)%float = true) /\
  (exists x, In x l /\ (x =? JS.Math_max l)%float = true).
Proof.
  intros Hne Hl. unfold JS.Math_max.
  destruct (Math_max_from_spec l Hl neg_infinity eq_refl) as (_ & Hall & Hin).
  split; [exact Hall |].
  destruct Hin as [Heq | Hin].
  - destruct l as [| x rest]; [congruence |].
    exists x. split; [left; reflexivity |].
    apply leb_antisym; [apply Hall; left; reflexivity |].
    rewrite Heq. apply neg_infinity_leb. apply Hl. left; reflexivity.
  - eexists. split; [exact Hin |].
    apply Hl in Hin. unfold is_nan in Hin.
    now apply negb_false_iff in Hin.
Qed.

Lemma indexOf_from_first a v :
  (exists x, In x a /\ (x =? v)%float = true) ->
  forall k, exists i,
    JS.indexOf_from k a v = (k + Z.of_nat i)%Z /\
    i < length a /\
    (nth i a nan =? v)%float = true /\
    (forall j, j < i -> (nth j a nan =? v)%float = false).
Proof.
  induction a as [| y rest IH]; intros (x & Hin & Hx) k; [destruct Hin |].
  simpl. destruct (y =? v)%float eqn:Hy.
  - exists 0. simpl. repeat split; try lia. exact Hy.
  - destruct Hin as [-> | Hin]; [congruence |].
    destruct (IH (ex_intro _ x (conj Hin Hx)) (k + 1)%Z) as (i & Hi & Hlt & Hat & Hbefore).
    exists (S i). simpl. repeat split; try lia.
    + exact Hat.
    + intros [| j] Hj; [exact Hy | apply Hbefore; lia].
Qed.

(** ** Binary64 arithmetic on integers

    The conversion of an integer below 2^53 is exact; a number divided by
    itself is 1; the quotient of two different positive 32-bit integers is
    not 1; 1 times an integer is that integer. *)

Open Scope Z_scope.

Lemma digits2_pos_size p : digits2_pos p = Pos.size p.
Proof. induction p; simpl; congruence. Qed.

Lemma digits2_bounds p :
  2 ^ (Zpos (digits2_pos p) - 1) <= Zpos p < 2 ^ Zpos (digits2_pos p).
Proof.
  rewrite digits2_pos_size. split.
  - pose proof (Pos.size_le p) as H.
    assert (Zpos (2 ^ Pos.size p) <= Zpos p~0) by exact H.
    rewrite Pos2Z.inj_pow in H0. change (Zpos p~0) with (2 * Zpos p) in H0.
    replace (Zpos (Pos.size p)) with (Zpos (Pos.size p) - 1 + 1) in H0 by lia.
    rewrite Z.pow_add_r, Z.pow_1_r in H0 by lia. lia.
  - pose proof (Pos.size_gt p) as H.
    assert (Zpos p < Zpos (2 ^ Pos.size p)) by exact H.
    now rewrite Pos2Z.inj_pow in H0.
Qed.

Lemma digits2_unique p d :
  2 ^ (d - 1) <= Zpos p < 2 ^ d -> Zpos (digits2_pos p) = d.
Proof.
  intros [Hlo Hhi]. pose proof (digits2_bounds p) as [Hlo' Hhi'].
  assert (0 < d) by (destruct d; try lia; simpl in Hhi; lia).
  destruct (Z.lt_trichotomy (Zpos (digits2_pos p)) d) as [Hlt | [Heq | Hgt]]; [| exact Heq |].
  - assert (2 ^ Zpos (digits2_pos p) <= 2 ^ (d - 1)) by (apply Z.pow_le_mono_r; lia). lia.
  - assert (2 ^ d <= 2 ^ (Zpos (digits2_pos p) - 1)) by (apply Z.pow_le_mono_r; lia). lia.
Qed.

Lemma shr_m_of_loc m l : shr_m (shr_record_of_loc m l) = m.
Proof. destruct l as [| []]; reflexivity. Qed.

Lemma loc_of_shr_of_loc m l : loc_of_shr_record (shr_record_of_loc m l) = l.
Proof. destruct l as [| []]; reflexivity. Qed.

Lemma round_nearest_even_bounds m l :
  m <= round_nearest_even m l <= m + 1.
Proof. destruct l as [| []]; simpl; try destruct (Z.even m); lia. Qed.

Lemma shr_m_shr_1 mrs : 0 <= shr_m mrs -> shr_m (shr_1 mrs) = Z.div2 (shr_m mrs).
Proof.
  destruct mrs as [m r s]. simpl. intros H.
  destruct m as [| [p | p |] | p]; try reflexivity; lia.
Qed.

Lemma binary_round_aux_finish sx mx ex lx :
  binary_round_aux prec emax sx mx ex lx =
  round_finish sx (fst (shr_fexp prec emax mx ex lx)) (snd (shr_fexp prec emax mx ex lx)).
Proof.
  unfold binary_round_aux, round_finish.
  destruct (shr_fexp prec emax mx ex lx) as [mrs' e']. reflexivity.
Qed.

Lemma round_finish_normal sx mrs' e' :
  2 ^ 52 <= shr_m mrs' < 2 ^ 53 ->
  -1074 <= e' <= 970 ->
  round_finish sx mrs' e' =
  if round_nearest_even (shr_m mrs') (loc_of_shr_record mrs') <? 2 ^ 53
  then S754_finite sx
         (Z.to_pos (round_nearest_even (shr_m mrs') (loc_of_shr_record mrs'))) e'
  else S754_finite sx (2 ^ 52)%positive (e' + 1).
Proof.
  intros Hm He. unfold round_finish, shr_fexp.
  pose proof (round_nearest_even_bounds (shr_m mrs') (loc_of_shr_record mrs')) as Hr.
  set (m1 := round_nearest_even (shr_m mrs') (loc_of_shr_record mrs')) in *.
  destruct (Z.ltb_spec m1 (2 ^ 53)) as [Hlt | Hge].
  - destruct m1 as [| p1 | p1] eqn:Hm1; try lia.
    assert (Hd : Zdigits2 (Zpos p1) = 53).
    { simpl. apply digits2_unique. change (53 - 1) with 52. lia. }
    rewrite Hd.
    replace (fexp prec emax (53 + e') - e') with 0
      by (unfold fexp, emin, prec, emax; lia).
    cbn [shr shr_record_of_loc shr_m Z.to_pos].
    replace (e' <=? emax - prec) with true
      by (symmetry; apply Z.leb_le; unfold emax, prec; lia).
    reflexivity.
  - assert (Hm1 : m1 = 2 ^ 53) by lia. rewrite Hm1.
    change (Zdigits2 (2 ^ 53)) with 54.
    replace (fexp prec emax (54 + e') - e') with 1
      by (unfold fexp, emin, prec, emax; lia).
    cbn [shr]. cbn.
    destruct (Z.leb_spec (e' + 1) 971); [reflexivity | lia].
Qed.

Lemma mantissa_normal n :
  0 < n < 2 ^ 53 -> 2 ^ 52 <= mantissa n < 2 ^ 53.
Proof.
  intros [Hpos Hlt]. unfold mantissa.
  destruct (Z.log2_spec n Hpos) as [Hlo Hhi].
  assert (Hl : 0 <= Z.log2 n <= 52).
  { split; [apply Z.log2_nonneg |].
    assert (Z.log2 n < 53) by (apply Z.log2_lt_pow2; lia). lia. }
  assert (Hp : 2 ^ Z.log2 n * 2 ^ (52 - Z.log2 n) = 2 ^ 52)
    by (rewrite <- Z.pow_add_r by lia; f_equal; lia).
  assert (Hq : 2 ^ Z.succ (Z.log2 n) * 2 ^ (52 - Z.log2 n) = 2 ^ 53)
    by (rewrite <- Z.pow_add_r by lia; f_equal; lia).
  assert (0 < 2 ^ (52 - Z.log2 n)) by (apply Z.pow_pos_nonneg; lia).
  nia.
Qed.

Lemma shl_pos_spec p k : Zpos (Pos.iter xO p k) = Zpos p * 2 ^ Zpos k.
Proof.
  change (Pos.iter xO p k) with (shift_pos k p).
  rewrite shift_pos_correct. change (Z.pow_pos 2 k) with (2 ^ Zpos k). lia.
Qed.

Lemma log2_digits p : Zpos (digits2_pos p) = Z.log2 (Zpos p) + 1.
Proof.
  apply digits2_unique.
  destruct (Z.log2_spec (Zpos p)) as [Hlo Hhi]; [lia |].
  replace (Z.log2 (Zpos p) + 1 - 1) with (Z.log2 (Zpos p)) by lia.
  replace (Z.log2 (Zpos p) + 1) with (Z.succ (Z.log2 (Zpos p))) by lia.
  lia.
Qed.

Lemma binary_round_aux_exact sx m e :
  2 ^ 52 <= Zpos m < 2 ^ 53 -> -1074 <= e <= 970 ->
  binary_round_aux prec emax sx (Zpos m) e loc_Exact = S754_finite sx m e.
Proof.
  intros Hm He. rewrite binary_round_aux_finish. unfold shr_fexp.
  assert (Hd : Zdigits2 (Zpos m) = 53)
    by (simpl; apply digits2_unique; change (53 - 1) with 52; lia).
  rewrite Hd.
  replace (fexp prec emax (53 + e) - e) with 0
    by (unfold fexp, emin, prec, emax; lia).
  cbn [shr fst snd shr_record_of_loc].
  rewrite round_finish_normal by (cbn [shr_m]; lia).
  cbn [shr_m loc_of_shr_record round_nearest_even].
  destruct (Z.ltb_spec (Zpos m) (2 ^ 53)); [reflexivity | lia].
Qed.

Lemma of_Z_spec n :
  0 < n < 2 ^ 53 ->
  Prim2SF (JS.of_Z n) = S754_finite false (Z.to_pos (mantissa n)) (exponent n).
Proof.
  intros Hn. unfold JS.of_Z. rewrite of_uint63_spec.
  change Uint63Axioms.to_Z with Uint63.to_Z.
  rewrite Uint63.of_Z_spec, Z.mod_small
    by (change Uint63.wB with (2 ^ 63); 
        assert (2 ^ 53 < 2 ^ 63) by (apply Z.pow_lt_mono_r; lia); lia).
  pose proof (mantissa_normal n Hn) as Hm.
  destruct n as [| p | p]; try lia.
  unfold binary_normalize, binary_round, shl_align.
  rewrite log2_digits.
  assert (Hl : 0 <= Z.log2 (Zpos p) <= 52).
  { split; [apply Z.log2_nonneg |].
    assert (Z.log2 (Zpos p) < 53) by (apply Z.log2_lt_pow2; lia). lia. }
  replace (fexp prec emax (Z.log2 (Zpos p) + 1 + 0)) with (Z.log2 (Zpos p) - 52)
    by (unfold fexp, emin, prec, emax; lia).
  unfold mantissa, exponent in *.
  destruct (Z.log2 (Zpos p) - 52 - 0) as [| k | k] eqn:Hk; try lia.
  - replace (52 - Z.log2 (Zpos p)) with 0 in * by lia.
    rewrite Z.mul_1_r in *. 
    replace (Z.log2 (Zpos p) - 52) with 0 by lia.
    rewrite binary_round_aux_exact by lia. reflexivity.
  - assert (Hs : Zpos (Pos.iter xO p k) = Zpos p * 2 ^ (52 - Z.log2 (Zpos p))).
    { rewrite shl_pos_spec. f_equal. f_equal. lia. }
    rewrite binary_round_aux_exact by lia.
    f_equal. rewrite <- Hs. reflexivity.
Qed.

Lemma div_eucl_div_mod a b : Z.div_eucl a b = (a / b, a mod b).
Proof. unfold Z.div, Z.modulo. destruct (Z.div_eucl a b); reflexivity. Qed.

Lemma SFdiv_same s m e :
  SFdiv prec emax (S754_finite s m e) (S754_finite s m e) =
  S754_finite false (2 ^ 52)%positive (-52).
Proof.
  unfold SFdiv, SFdiv_core_binary.
  replace (Zdigits2 (Zpos m) + e - (Zdigits2 (Zpos m) + e)) with 0 by lia.
  replace (e - e) with 0 by lia.
  change (Z.min (fexp prec emax 0) 0) with (-53).
  change (0 - -53) with 53.
  cbv iota beta.
  rewrite div_eucl_div_mod, Z.shiftl_mul_pow2 by lia.
  rewrite Z.mul_comm, Z.div_mul, Z.mod_mul by lia.
  unfold new_location.
  destruct (Z.even (Zpos m)); destruct s; reflexivity.
Qed.

Lemma div_same_finite x s m e :
  Prim2SF x = S754_finite s m e -> (x / x)%float = 1%float.
Proof.
  intros H. apply Prim2SF_inj. rewrite div_spec, H.
  unfold SF64div. rewrite SFdiv_same. reflexivity.
Qed.

Lemma SFdiv_normal s1 m1 e1 s2 m2 e2 :
  2 ^ 52 <= Zpos m1 < 2 ^ 53 -> 2 ^ 52 <= Zpos m2 < 2 ^ 53 ->
  -1021 <= e1 - e2 ->
  SFdiv prec emax (S754_finite s1 m1 e1) (S754_finite s2 m2 e2) =
  binary_round_aux prec emax (xorb s1 s2)
    ((Zpos m1 * 2 ^ 53) / Zpos m2) (e1 - e2 - 53)
    (new_location (Zpos m2) ((Zpos m1 * 2 ^ 53) mod Zpos m2)).
Proof.
  intros H1 H2 He. unfold SFdiv, SFdiv_core_binary.
  assert (Hd1 : Zdigits2 (Zpos m1) = 53)
    by (simpl; apply digits2_unique; change (53 - 1) with 52; lia).
  assert (Hd2 : Zdigits2 (Zpos m2) = 53)
    by (simpl; apply digits2_unique; change (53 - 1) with 52; lia).
  rewrite Hd1, Hd2.
  replace (Z.min (fexp prec emax (53 + e1 - (53 + e2))) (e1 - e2))
    with (e1 - e2 - 53) by (unfold fexp, emin, prec, emax; lia).
  replace (e1 - e2 - (e1 - e2 - 53)) with 53 by lia.
  cbv iota beta.
  rewrite div_eucl_div_mod, Z.shiftl_mul_pow2 by lia.
  reflexivity.
Qed.

Lemma binary_round_aux_one q e l :
  2 ^ 52 <= q < 2 ^ 54 -> -1074 <= e <= 969 ->
  binary_round_aux prec emax false q e l = S754_finite false (2 ^ 52)%positive (-52) ->
  (q <= 2 ^ 52 /\ e = -52) \/ (q <= 2 ^ 53 + 1 /\ e = -53) \/ e = -54.
Proof.
  intros Hq He. rewrite binary_round_aux_finish. unfold shr_fexp.
  destruct q as [| p | p]; try lia.
  destruct (Z.lt_ge_cases (Zpos p) (2 ^ 53)) as [Hlt | Hge].
  - assert (Hd : Zdigits2 (Zpos p) = 53)
      by (simpl; apply digits2_unique; change (53 - 1) with 52; lia).
    rewrite Hd.
    replace (fexp prec emax (53 + e) - e) with 0
      by (unfold fexp, emin, prec, emax; lia).
    cbn [shr fst snd].
    rewrite round_finish_normal by (rewrite ?shr_m_of_loc; lia).
    rewrite shr_m_of_loc, loc_of_shr_of_loc.
    pose proof (round_nearest_even_bounds (Zpos p) l) as Hr.
    destruct (Z.ltb_spec (round_nearest_even (Zpos p) l) (2 ^ 53)) as [H1 | H1];
      intros H.
    + injection H as Hm He'. left. split; [| exact He'].
      apply (f_equal Zpos) in Hm. rewrite Z2Pos.id in Hm by lia.
      change (Zpos (2 ^ 52)) with (2 ^ 52) in Hm. lia.
    + injection H as He'. right; left. split; lia.
  - assert (Hd : Zdigits2 (Zpos p) = 54)
      by (simpl; apply digits2_unique; change (54 - 1) with 53; lia).
    rewrite Hd.
    replace (fexp prec emax (54 + e) - e) with 1
      by (unfold fexp, emin, prec, emax; lia).
    cbn [shr fst snd iter_pos].
    assert (Hs : shr_m (shr_1 (shr_record_of_loc (Zpos p) l)) = Zpos p / 2).
    { rewrite shr_m_shr_1, shr_m_of_loc by (rewrite shr_m_of_loc; lia).
      apply Z.div2_div. }
    assert (Hb : 2 ^ 52 <= Zpos p / 2 < 2 ^ 53).
    { split.
      - apply Z.div_le_lower_bound; [lia |]. change (2 * 2 ^ 52) with (2 ^ 53). lia.
      - apply Z.div_lt_upper_bound; [lia |]. change (2 * 2 ^ 53) with (2 ^ 54). lia. }
    rewrite round_finish_normal by (rewrite ?Hs; lia).
    rewrite Hs.
    pose proof (round_nearest_even_bounds (Zpos p / 2)
                  (loc_of_shr_record (shr_1 (shr_record_of_loc (Zpos p) l)))) as Hr.
    destruct (Z.ltb_spec (round_nearest_even (Zpos p / 2)
                (loc_of_shr_record (shr_1 (shr_record_of_loc (Zpos p) l)))) (2 ^ 53))
      as [H1 | H1]; intros H.
    + injection H as Hm He'. right; left. split; [| lia].
      apply (f_equal Zpos) in Hm. rewrite Z2Pos.id in Hm by lia.
      change (Zpos (2 ^ 52)) with (2 ^ 52) in Hm.
      pose proof (Z.mul_succ_div_gt (Zpos p) 2 ltac:(lia)) as Hdiv.
      change (2 ^ 53) with (2 * 2 ^ 52). lia.
    + injection H as He'. right; right. lia.
Qed.

Lemma of_Z_div_not_one M m :
  0 < m < M -> M < 2 ^ 31 -> (JS.of_Z M / JS.of_Z m)%float <> 1%float.
Proof.
  intros Hm HM Heq.
  assert (H31 : 2 ^ 31 < 2 ^ 53) by (apply Z.pow_lt_mono_r; lia).
  apply (f_equal Prim2SF) in Heq.
  rewrite div_spec, !of_Z_spec in Heq by lia.
  change (Prim2SF 1) with (S754_finite false (2 ^ 52)%positive (-52)) in Heq.
  pose proof (mantissa_normal M ltac:(lia)) as HmM.
  pose proof (mantissa_normal m ltac:(lia)) as Hmm.
  assert (HlM : 0 <= Z.log2 M <= 30).
  { split; [apply Z.log2_nonneg |].
    assert (Z.log2 M < 31) by (apply Z.log2_lt_pow2; lia). lia. }
  assert (Hlm : 0 <= Z.log2 m <= Z.log2 M).
  { split; [apply Z.log2_nonneg | apply Z.log2_le_mono; lia]. }
  unfold SF64div in Heq.
  rewrite SFdiv_normal in Heq
    by (rewrite ?Z2Pos.id by lia; unfold exponent; lia).
  rewrite !Z2Pos.id in Heq by lia.
  unfold exponent in Heq. cbn [xorb] in Heq.
  apply binary_round_aux_one in Heq.
  - unfold mantissa in *.
    set (PA := 2 ^ (52 - Z.log2 M)) in *.
    set (PB := 2 ^ (52 - Z.log2 m)) in *.
    assert (HPA : 0 < PA) by (apply Z.pow_pos_nonneg; lia).
    assert (Hlin : m * (2 ^ 53 + 2) <= M * 2 ^ 53) by lia.
    destruct Heq as [[Hq He] | [[Hq He] | He]]; [| | lia].
    + assert (HPB : PB = 2 * PA).
      { unfold PA, PB. replace (52 - Z.log2 m) with (Z.succ (52 - Z.log2 M)) by lia.
        apply Z.pow_succ_r. lia. }
      assert (2 ^ 52 + 1 <= M * PA * 2 ^ 53 / (m * PB)); [| lia].
      apply Z.div_le_lower_bound; [nia |]. rewrite HPB. nia.
    + assert (HPB : PB = PA) by (unfold PA, PB; f_equal; lia).
      assert (2 ^ 53 + 2 <= M * PA * 2 ^ 53 / (m * PB)); [| lia].
      apply Z.div_le_lower_bound; [nia |]. rewrite HPB. nia.
  - split.
    + apply Z.div_le_lower_bound; [lia |]. lia.
    + apply Z.div_lt_upper_bound; [lia |]. lia.
  - lia.
Qed.

Lemma SFmul_one_normal m e :
  2 ^ 52 <= Zpos m < 2 ^ 53 -> -1074 <= e <= 970 ->
  SFmul prec emax (S754_finite false (2 ^ 52)%positive (-52)) (S754_finite false m e)
  = S754_finite false m e.
Proof.
  intros Hm He. unfold SFmul. cbn [xorb].
  rewrite binary_round_aux_finish. unfold shr_fexp.
  assert (Hd : Zdigits2 (Zpos (2 ^ 52 * m)) = 105).
  { change (Zdigits2 (Zpos (2 ^ 52 * m))) with (Zpos (digits2_pos (2 ^ 52 * m))).
    apply digits2_unique. rewrite Pos2Z.inj_mul.
    change (Zpos (2 ^ 52)) with (2 ^ 52).
    change (2 ^ (105 - 1)) with (2 ^ 52 * 2 ^ 52).
    change (2 ^ 105) with (2 ^ 52 * 2 ^ 53).
    split.
    - apply Z.mul_le_mono_nonneg_l; lia.
    - apply Z.mul_lt_mono_pos_l; lia. }
  rewrite Hd.
  replace (fexp prec emax (105 + (-52 + e)) - (-52 + e)) with 52
    by (unfold fexp, emin, prec, emax; lia).
  cbn [shr fst snd].
  replace (-52 + e + 52) with e by lia.
  assert (Hs : iter_pos shr_1 52 (shr_record_of_loc (Zpos (2 ^ 52 * m)) loc_Exact)
               = Build_shr_record (Zpos m) false false)
    by (vm_compute; reflexivity).
  rewrite Hs.
  rewrite round_finish_normal by (cbn [shr_m]; lia).
  cbn [shr_m loc_of_shr_record round_nearest_even].
  destruct (Z.ltb_spec (Zpos m) (2 ^ 53)); [reflexivity | lia].
Qed.

Lemma mul_one_of_Z n : 0 < n < 2 ^ 53 -> (1 * JS.of_Z n)%float = JS.of_Z n.
Proof.
  intros Hn. apply Prim2SF_inj. rewrite mul_spec, of_Z_spec by exact Hn.
  change (Prim2SF 1) with (S754_finite false (2 ^ 52)%positive (-52)).
  pose proof (mantissa_normal n Hn) as Hm.
  assert (Hl : 0 <= Z.log2 n <= 52).
  { split; [apply Z.log2_nonneg |].
    assert (Z.log2 n < 53) by (apply Z.log2_lt_pow2; lia). lia. }
  apply SFmul_one_normal; [rewrite Z2Pos.id by lia; exact Hm | unfold exponent; lia].
Qed.

Close Scope Z_scope.

(** ** Uninterrupted runs of orderly programs *)

Ltac shape_step :=
  cbn;
  match goal with
  | |- orderly _ (match ?x with _ => _ end) => destruct x
  | |- orderly _ (bind (match ?x with _ => _ end) _) => destruct x
  | |- quiet (match ?x with _ => _ end) => destruct x
  | |- orderly _ _ =>
      first [ apply orderly_ret
            | apply orderly_throw
            | apply orderly_await; [reflexivity | intros]
            | apply orderly_raf; [reflexivity | intros]
            | apply orderly_call; [reflexivity | reflexivity | intros] ]
  | |- quiet _ =>
      first [ apply quiet_ret
            | apply quiet_throw
            | apply quiet_do; [reflexivity | reflexivity | intros] ]
  end.

Lemma detect_orderly vidSource canvasRef topk iouThreshold scoreThreshold inputShape :
  orderly false (detect vidSource canvasRef topk iouThreshold scoreThreshold
                        inputShape).
Proof.
  unfold detect.
  destruct ((videoWidth vidSource =? 0)%Z && is_null (srcObject vidSource)).
  - repeat shape_step.
  - unfold detectFrame, captureVideo, detectImage, preprocessing, call.
    repeat shape_step.
Qed.

Lemma raf_follows_render_weaken b tr :
  raf_follows_render false tr -> raf_follows_render b tr.
Proof.
  destruct tr as [| e tr]; [trivial |]. simpl. intros [H1 H2].
  split; [| exact H2]. intros H. apply H1 in H. discriminate H.
Qed.

Lemma raf_follows_render_app b tr1 tr2 :
  raf_follows_render b tr1 -> raf_follows_render false tr2 ->
  raf_follows_render b (tr1 ++ tr2).
Proof.
  revert b. induction tr1 as [| e tr1 IH]; intros b H1 H2; simpl.
  - apply raf_follows_render_weaken. exact H2.
  - destruct H1 as [He H1]. split; [exact He | apply IH; assumption].
Qed.

Lemma count_cons f e tr :
  count f (e :: tr) = (if f e then 1 else 0) + count f tr.
Proof. unfold count. simpl. destruct (f e); reflexivity. Qed.

Lemma count_app f tr1 tr2 : count f (tr1 ++ tr2) = count f tr1 + count f tr2.
Proof. unfold count. now rewrite filter_app, length_app. Qed.

Lemma count_nil f : count f [] = 0.
Proof. reflexivity. Qed.

Lemma is_schedule_raf X (c : Call X) r :
  is_raf c = false -> is_schedule (Called c r) = false.
Proof. destruct c; simpl; intros H; try reflexivity. discriminate H. Qed.

Lemma is_render_renderBoxes X (c : Call X) x :
  is_render (Called c (inr x)) = is_renderBoxes c.
Proof. destruct c; reflexivity. Qed.

(** A quiet program runs to its end and schedules nothing. *)
Lemma advance_quiet {A} env (p : Prog A) :
  quiet p ->
  forall b, exists r,
    snd (advance env p) = Finished r /\
    count is_schedule (fst (advance env p)) = 0 /\
    raf_follows_render b (fst (advance env p)).
Proof.
  induction 1 as [a | e | X c k Hawait Hraf Hk IH]; intros b; cbn [advance].
  - exists (inr a). cbn. auto.
  - exists (inl e). cbn. auto.
  - rewrite Hawait. destruct (env X c) as [e | x].
    + exists (inl e). cbn [fst snd raf_follows_render is_raf_entry].
      rewrite count_cons, is_schedule_raf by exact Hraf.
      repeat split. congruence.
    + destruct (IH x (is_render (Called c (inr x)))) as (r & Hr & Hc & Hf).
      destruct (advance env (k x)) as [tr st]. cbn [fst snd] in *.
      exists r. cbn [raf_follows_render is_raf_entry].
      rewrite count_cons, is_schedule_raf by exact Hraf.
      repeat split; try assumption. congruence.
Qed.

(** An orderly program, run up to its next [await], requests at most one
    frame, and none if it is suspended; what is left of it is orderly. *)
Lemma advance_orderly {A} env (p : Prog A) b :
  orderly b p ->
  raf_follows_render b (fst (advance env p)) /\
  match snd (advance env p) with
  | Finished _ => count is_schedule (fst (advance env p)) <= 1
  | Suspended c k =>
      count is_schedule (fst (advance env p)) = 0 /\
      is_await c = true /\ forall x, orderly false (k x)
  end.
Proof.
  induction 1 as [b a | b e | b X c k Hawait Hk IH | X c k Hraf Hk
                 | b X c k Hawait Hraf Hk IH]; cbn [advance].
  - cbn. auto.
  - cbn. auto.
  - rewrite Hawait. cbn. auto.
  - assert (Hawait : is_await c = false)
      by (destruct c; try reflexivity; discriminate Hraf).
    rewrite Hawait. destruct (env X c) as [e | x].
    + cbn [fst snd raf_follows_render]. split; [auto |].
      rewrite count_cons. change (count is_schedule []) with 0.
      destruct (is_schedule (Called c (inl e))); lia.
    + destruct (advance_quiet env (k x) (Hk x) (is_render (Called c (inr x))))
        as (r & Hr & Hc & Hf).
      destruct (advance env (k x)) as [tr st]. cbn [fst snd] in *. subst st.
      cbn [raf_follows_render]. split; [auto |].
      rewrite count_cons, Hc. destruct (is_schedule (Called c (inr x))); lia.
  - rewrite Hawait. destruct (env X c) as [e | x].
    + cbn [fst snd raf_follows_render is_raf_entry].
      split; [split; [congruence | trivial] |].
      rewrite count_cons, is_schedule_raf by exact Hraf.
      change (count is_schedule []) with 0. lia.
    + destruct (IH x) as [Hf Hs].
      destruct (advance env (k x)) as [tr st]. cbn [fst snd] in *.
      cbn [raf_follows_render is_raf_entry]. rewrite is_render_renderBoxes.
      split; [split; [congruence | exact Hf] |].
      rewrite count_cons, is_schedule_raf by exact Hraf. exact Hs.
Qed.

(** ** The invariant of the pump *)

Lemma absorb_orderly env (p : Prog unit) w :
  orderly false p ->
  scheduled w = 0 -> in_flight w = [] ->
  raf_follows_render false (history w) ->
  pump_invariant (absorb w (advance env p)).
Proof.
  intros Hp Hs Hf Hh.
  destruct (advance_orderly env p false Hp) as [Hraf Hst].
  unfold pump_invariant, absorb.
  destruct (advance env p) as [tr st]. cbn [fst snd] in *.
  cbn [scheduled in_flight history]. rewrite Hs, Hf.
  split; [| split].
  - destruct st as [r | X c k]; cbn [app length]; [lia |].
    destruct Hst as [-> _]. lia.
  - destruct st as [r | X c k]; cbn [app]; [constructor |].
    constructor; [| constructor]. destruct Hst as (_ & Ha & Hk). split; assumption.
  - apply raf_follows_render_app; assumption.
Qed.

Lemma await_not_raf X (c : Call X) : is_await c = true -> is_raf c = false.
Proof. destruct c; simpl; intros H; try reflexivity; discriminate H. Qed.

Lemma invariant_alone w before X (c : Call X) k after :
  pump_invariant w ->
  in_flight w = before ++ Awaiting c k :: after ->
  before = [] /\ after = [] /\ scheduled w = 0 /\ resumable (Awaiting c k).
Proof.
  intros (Hle & Hres & _) Hin. rewrite Hin in Hle, Hres.
  rewrite length_app in Hle. cbn [length] in Hle.
  apply Forall_app in Hres. destruct Hres as [_ Hres].
  inversion Hres; subst.
  destruct before; [| cbn [length] in Hle; lia].
  destruct after; [| cbn [length] in Hle; lia].
  cbn [length] in Hle.
  split; [reflexivity |]. split; [reflexivity |]. split; [lia | assumption].
Qed.

Lemma step_invariant canvasRef topk iouThreshold scoreThreshold inputShape w w' :
  pump_invariant w ->
  step canvasRef topk iouThreshold scoreThreshold inputShape w w' ->
  pump_invariant w'.
Proof.
  intros Hinv Hstep. destruct Hstep as [env vidSource w Hpos | env w before after X c k r Hin].
  - destruct Hinv as (Hle & Hres & Hh).
    unfold fire, tick. apply absorb_orderly; cbn.
    + apply detect_orderly.
    + lia.
    + destruct (in_flight w); [reflexivity | cbn [length] in Hle; lia].
    + exact Hh.
  - destruct (invariant_alone _ _ _ _ _ _ Hinv Hin) as (-> & -> & Hs & Ha & Hk).
    assert (Hh : raf_follows_render false (history w ++ [Called c r])).
    { apply raf_follows_render_app; [apply Hinv |].
      cbn. rewrite (await_not_raf _ _ Ha). split; [congruence | trivial]. }
    unfold settle. destruct r as [e | x].
    + unfold pump_invariant, absorb. cbn. rewrite Hs, app_nil_r. cbn.
      split; [lia |]. split; [constructor | exact Hh].
    + apply absorb_orderly; cbn; auto.
Qed.

Lemma reachable_invariant canvasRef topk iouThreshold scoreThreshold inputShape w :
  reachable canvasRef topk iouThreshold scoreThreshold inputShape w ->
  pump_invariant w.
Proof.
  induction 1 as [env vidSource | w w' _ IH Hstep].
  - unfold detectVideo, tick. apply absorb_orderly; cbn; auto.
    apply detect_orderly.
  - eapply step_invariant; eassumption.
Qed.

Lemma idle_stopped canvasRef topk iouThreshold scoreThreshold inputShape w :
  scheduled w = 0 -> in_flight w = [] ->
  stopped canvasRef topk iouThreshold scoreThreshold inputShape w.
Proof.
  intros Hs Hf w' Hstep.
  destruct Hstep as [env vidSource w Hpos | env w before after X c k r Hin].
  - lia.
  - rewrite Hf in Hin. destruct before; discriminate Hin.
Qed.

Lemma settle_first_step canvasRef topk iouThreshold scoreThreshold inputShape
    env backend w :
  in_flight w <> [] ->
  step canvasRef topk iouThreshold scoreThreshold inputShape w
       (settle_first env backend w).
Proof.
  intros Hne. unfold settle_first.
  destruct (in_flight w) as [| [X c k] after] eqn:Hin; [congruence |].
  apply step_settle. exact Hin.
Qed.

Lemma started_reachable :
  reachable Fixture.canvas 100%float 0.5%float 0.25%float Fixture.inputShape Fixture.started.
Proof. apply reach_start. Qed.

Lemma frame_done_reachable :
  reachable Fixture.canvas 100%float 0.5%float 0.25%float Fixture.inputShape Fixture.frame_done.
Proof.
  eapply reach_step; [eapply reach_step; [apply started_reachable |] |];
    apply settle_first_step; vm_compute; discriminate.
Qed.

(** ** The exit paths of [detectImage] *)

Ltac run_paths H env :=
  repeat (match type of H with
          | context [match env ?X ?c with _ => _ end] =>
              let E := fresh "Hcall" in destruct (env X c) as [?e | ?x] eqn:E
          end; cbv iota beta in H).

Ltac count_buffers b :=
  repeat rewrite ?count_cons, ?count_app;
  repeat match goal with
  | H : buffer_free ?t |- context [count (is_alloc ?b') ?t] =>
      rewrite (proj1 (H b'))
  | H : buffer_free ?t |- context [count (is_delete ?b') ?t] =>
      rewrite (proj2 (H b'))
  end;
  change (count (is_alloc b) []) with 0;
  change (count (is_delete b) []) with 0;
  change (count (is_delete b_input) []) with 0;
  destruct b; cbn [is_alloc is_delete buffer_eqb];
  (split; [lia | split; [lia | split; [intros Hr; try discriminate Hr; lia
                                      | intros Hr; try congruence; lia]]]).

Lemma detectImage_buffers env image canvas topk iouThreshold scoreThreshold
    inputShape callback tr r :
  buffer_free (fst (run env callback)) ->
  run env (detectImage image canvas topk iouThreshold scoreThreshold inputShape
                       callback) = (tr, r) ->
  forall b,
    count (is_delete b) tr <= count (is_alloc b) tr /\
    count (is_alloc b) tr <= 1 /\
    (r = inr tt -> count (is_alloc b) tr = 1 /\ count (is_delete b) tr = 1) /\
    (r <> inr tt -> count (is_delete b_input) tr = 0).
Proof.
  intros Hfree H b.
  unfold detectImage, preprocessing, JS.Math_max_int, call in H.
  cbn [bind run] in H.
  run_paths H env; try (injection H as <- <-; count_buffers b).
  destruct x11 as [selected |]; cbn [run] in H;
    [| cbv iota beta in H; injection H as <- <-; count_buffers b].
  run_paths H env; try (injection H as <- <-; count_buffers b).
  rewrite run_bind in H.
  destruct (run env callback) as [trc [e | []]]; cbn [fst] in Hfree;
    cbv iota beta in H; [injection H as <- <-; count_buffers b |].
  cbn [run] in H.
  run_paths H env; injection H as <- <-; count_buffers b.
Qed.

(** ** C1: the bounding rectangle of an emitted box *)

(** C1. When [detectImage] completes, the boxes handed to [renderBoxes] are
    the decoded rows of the tensor that the postprocessing call selected,
    scaled by the ratios that [preprocessing] returned: for every row [idx]
    whose first four values are [cx, cy, w, h], box [idx] has bounding
    rectangle [[(cx - 0.5*w)*xRatio, (cy - 0.5*h)*yRatio, w*xRatio,
    h*yRatio]], in binary64 arithmetic. In particular cx=100, cy=50, w=40,
    h=20, xRatio=2, yRatio=1 gives [[160, 40, 80, 20]]. *)
Theorem C1_bounding_rectangle env image canvas topk iouThreshold scoreThreshold
    inputShape callback tr :
  run env (detectImage image canvas topk iouThreshold scoreThreshold inputShape
                       callback) = (tr, inr tt) ->
  exists trp input xRatio yRatio output0 config selected,
    run env (preprocessing image (nth_error (skipn 2 inputShape) 0)
                           (nth_error (skipn 2 inputShape) 1))
      = (trp, inr (input, xRatio, yRatio)) /\
    env _ (nms_run output0 config) = inr (Some selected) /\
    hd_error (rendered tr) = Some (decode xRatio yRatio selected) /\
    (forall idx cx cy w h scores,
        idx < nth 1 (dims selected) 0 ->
        row selected idx = cx :: cy :: w :: h :: scores ->
        exists box,
          nth_error (decode xRatio yRatio selected) idx = Some box /\
          bounding box =
          [ (cx - 0.5 * w) * xRatio; (cy - 0.5 * h) * yRatio;
            w * xRatio; h * yRatio ]%float) /\
    (forall scores,
        bounding (decode_row 2 1 (100 :: 50 :: 40 :: 20 :: scores)%float) =
        [160; 40; 80; 20]%float).
Proof.
  intros H. apply detectImage_renders in H.
  destruct H as (trp & input & xRatio & yRatio & output0 & config & selected &
                 Hp & Hn & Hr).
  exists trp, input, xRatio, yRatio, output0, config, selected.
  split; [exact Hp |]. split; [exact Hn |]. split; [exact Hr |]. split.
  - intros idx cx cy w h scores Hidx Hrow.
    eexists. split; [apply decode_nth; exact Hidx |].
    rewrite Hrow. apply decode_row_bounding.
  - intros scores. rewrite decode_row_bounding. reflexivity.
Qed.

Lemma C1_bounding_rectangle_witness :
  exists tr,
    run Fixture.env (detectImage Fixture.image Fixture.canvas 100 0.5 0.25
                                 Fixture.inputShape no_callback) = (tr, inr tt) /\
    exists box,
      nth_error (hd [] (rendered tr)) 0 = Some box /\
      bounding box = [160; 40; 80; 20]%float.
Proof.
  eexists. split; [vm_compute; reflexivity |].
  destruct (C1_bounding_rectangle Fixture.env Fixture.image Fixture.canvas
              100 0.5 0.25 Fixture.inputShape no_callback _ eq_refl)
    as (trp & input & xRatio & yRatio & output0 & config & selected &
        Hp & Hn & Hr & Hrow & _).
  vm_compute in Hp. vm_compute in Hn.
  injection Hp as _ _ <- <-. injection Hn as <-.
  destruct (Hrow 0 100%float 50%float 40%float 20%float [0.5; 0.5]%float)
    as (box & Hbox & Hb);
    [simpl; lia | reflexivity |].
  exists box. split; [| rewrite Hb; reflexivity].
  vm_compute in Hbox. vm_compute. exact Hbox.
Defined.

(** ** C2: padding and ratios *)

Lemma ratio_same n :
  (0 < n < 2 ^ 53)%Z -> (JS.of_Z n / JS.of_Z n)%float = 1%float.
Proof.
  intros Hn. eapply div_same_finite. apply of_Z_spec. exact Hn.
Qed.

Lemma pow_31_53 : (2 ^ 31 < 2 ^ 53)%Z.
Proof. apply Z.pow_lt_mono_r; lia. Qed.

(** C2, as stated, fails in binary64 arithmetic: for a source 7 wide and 29
    high, [xRatio] is the double nearest to 29/7, and [xRatio * 7] is
    29.000000000000004, not 29 = [yRatio * 29] = [maxSize]. *)
Lemma C2_product_counterexample :
  exists input xRatio yRatio,
    snd (run (Fixture.env_with 29 7 Fixture.selected)
             (preprocessing Fixture.image (Some 640) (Some 640)))
      = inr (input, xRatio, yRatio) /\
    (xRatio * JS.of_Z 7 =? JS.of_Z 29)%float = false /\
    (xRatio * JS.of_Z 7 =? yRatio * JS.of_Z 29)%float = false /\
    (JS.of_Z 29 <? xRatio * JS.of_Z 7)%float = true.
Proof.
  eexists _, _, _. split; [vm_compute; reflexivity |].
  repeat split.
Qed.

(** C2 (amended). For every source whose matrix, as [cv.imread] reads it,
    has width [cols] and height [rows] with [0 < cols, rows < 2^31],
    [preprocessing] pads only at the bottom and at the right (top and left
    borders are 0) to a square of side [maxSize = max(rows, cols)] and
    returns [xRatio = maxSize / cols] and [yRatio = maxSize / rows], the
    quotients being binary64 divisions. So a square source has
    [xRatio = yRatio = 1]; a source with [cols <> rows] has
    [xRatio <> yRatio]; the ratio of the longer side is exactly 1 and its
    product with that side is exactly [maxSize]. (For the shorter side the
    product is [maxSize] up to rounding only.) *)
Theorem C2_letterbox_ratios (env : Env) source modelWidth modelHeight tr input
    xRatio yRatio mat :
  env _ (cv_imread source) = inr mat ->
  (0 < cols mat < 2 ^ 31)%Z ->
  (0 < rows mat < 2 ^ 31)%Z ->
  run env (preprocessing source modelWidth modelHeight)
    = (tr, inr (input, xRatio, yRatio)) ->
  let maxSize := Z.max (rows mat) (cols mat) in
  let matC3 := mkMat (rows mat) (cols mat) [] in
  In (Called (cv_copyMakeBorder matC3 (mkMat 0 0 []) 0 (maxSize - rows mat)
                                0 (maxSize - cols mat) BORDER_CONSTANT) (inr tt))
     tr /\
  border_size matC3 0 (maxSize - rows mat) 0 (maxSize - cols mat)
    = (maxSize, maxSize) /\
  (0 <= maxSize - rows mat)%Z /\
  (0 <= maxSize - cols mat)%Z /\
  xRatio = (JS.of_Z maxSize / JS.of_Z (cols mat))%float /\
  yRatio = (JS.of_Z maxSize / JS.of_Z (rows mat))%float /\
  (rows mat = cols mat -> xRatio = 1%float /\ yRatio = 1%float) /\
  (rows mat <> cols mat -> xRatio <> yRatio) /\
  (cols mat = maxSize ->
   xRatio = 1%float /\ (xRatio * JS.of_Z (cols mat))%float = JS.of_Z maxSize) /\
  (rows mat = maxSize ->
   yRatio = 1%float /\ (yRatio * JS.of_Z (rows mat))%float = JS.of_Z maxSize).
Proof.
  intros Hread Hc Hr Hrun maxSize matC3.
  pose proof pow_31_53 as H53.
  apply preprocessing_returns in Hrun.
  destruct Hrun as (mat' & Hread' & Hrun). cbv zeta in Hrun.
  rewrite Hread in Hread'. injection Hread' as <-.
  destruct Hrun as (Hx & Hy & Htr).
  fold maxSize in Hx, Hy, Htr. fold matC3 in Htr.
  assert (Hsame_x : cols mat = maxSize ->
            xRatio = 1%float /\
            (xRatio * JS.of_Z (cols mat))%float = JS.of_Z maxSize).
  { intros E. rewrite Hx, <- E.
    rewrite ratio_same by lia. split; [reflexivity |].
    apply mul_one_of_Z. lia. }
  assert (Hsame_y : rows mat = maxSize ->
            yRatio = 1%float /\
            (yRatio * JS.of_Z (rows mat))%float = JS.of_Z maxSize).
  { intros E. rewrite Hy, <- E.
    rewrite ratio_same by lia. split; [reflexivity |].
    apply mul_one_of_Z. lia. }
  split; [rewrite Htr; simpl; tauto |].
  split; [unfold border_size, matC3; cbn [rows cols]; f_equal; lia |].
  split; [unfold maxSize; lia |]. split; [unfold maxSize; lia |].
  split; [exact Hx |]. split; [exact Hy |].
  split; [| split; [| split; assumption]].
  - intros E. split; [apply Hsame_x | apply Hsame_y]; unfold maxSize; lia.
  - intros Hne.
    destruct (Z.lt_total (rows mat) (cols mat)) as [Hlt | [Heq | Hgt]];
      [| contradiction |].
    + (* wider than high: xRatio = 1, yRatio = cols / rows *)
      assert (E : cols mat = maxSize) by (unfold maxSize; lia).
      destruct (Hsame_x E) as [-> _]. rewrite Hy, <- E.
      intros Heq. symmetry in Heq. revert Heq.
      apply of_Z_div_not_one; lia.
    + assert (E : rows mat = maxSize) by (unfold maxSize; lia).
      destruct (Hsame_y E) as [-> _]. rewrite Hx, <- E.
      apply of_Z_div_not_one; lia.
Qed.

Lemma C2_letterbox_ratios_witness :
  exists input xRatio yRatio,
    snd (run Fixture.env (preprocessing Fixture.image (Some 640) (Some 640)))
      = inr (input, xRatio, yRatio) /\
    xRatio <> yRatio /\ yRatio = 1%float.
Proof.
  eexists _, _, _. split; [vm_compute; reflexivity |].
  edestruct (C2_letterbox_ratios Fixture.env Fixture.image (Some 640) (Some 640))
    as (_ & _ & _ & _ & _ & _ & _ & Hne & _ & Hy);
    [reflexivity | cbn; lia | cbn; lia | vm_compute; reflexivity |].
  split; [apply Hne; discriminate | apply Hy; reflexivity].
Defined.

(** ** C3: the number of emitted boxes *)

(** C3. When [detectImage] completes and the tensor selected by the
    postprocessing call is shaped [[1, N, rowWidth]], the list of boxes
    handed to [renderBoxes] has exactly [N] entries; so if [N <= topk], the
    number of boxes does not exceed [topk]. *)
Theorem C3_box_count env image canvas topk iouThreshold scoreThreshold
    inputShape callback tr :
  run env (detectImage image canvas topk iouThreshold scoreThreshold inputShape
                       callback) = (tr, inr tt) ->
  exists output0 config selected boxes,
    env _ (nms_run output0 config) = inr (Some selected) /\
    hd_error (rendered tr) = Some boxes /\
    forall N rowWidth,
      dims selected = [1; N; rowWidth] ->
      length boxes = N /\
      ((JS.of_Z (Z.of_nat N) <=? topk)%float = true ->
       (JS.of_Z (Z.of_nat (length boxes)) <=? topk)%float = true).
Proof.
  intros H. apply detectImage_renders in H.
  destruct H as (trp & input & xRatio & yRatio & output0 & config & selected &
                 _ & Hn & Hr).
  exists output0, config, selected, (decode xRatio yRatio selected).
  split; [exact Hn |]. split; [exact Hr |].
  intros N rowWidth Hdims.
  assert (HN : length (decode xRatio yRatio selected) = N)
    by (rewrite decode_length, Hdims; reflexivity).
  split; [exact HN |]. rewrite HN. auto.
Qed.

Lemma C3_box_count_witness :
  exists tr,
    run Fixture.env (detectImage Fixture.image Fixture.canvas 100 0.5 0.25
                                 Fixture.inputShape no_callback) = (tr, inr tt) /\
    length (hd [] (rendered tr)) = 2 /\
    (JS.of_Z (Z.of_nat (length (hd [] (rendered tr)))) <=? 100)%float = true.
Proof.
  eexists. split; [vm_compute; reflexivity |].
  destruct (C3_box_count Fixture.env Fixture.image Fixture.canvas
              100 0.5 0.25 Fixture.inputShape no_callback _ eq_refl)
    as (output0 & config & selected & boxes & Hn & Hr & Hdims).
  vm_compute in Hn. injection Hn as <-.
  vm_compute in Hr. injection Hr as <-.
  destruct (Hdims 2 6 eq_refl) as [Hlen Hle].
  split; [exact Hlen | apply Hle; reflexivity].
Defined.

(** ** C4: a backend rejection during a tick *)

Lemma settle_first_rejects env backend w X (c : Call X) k after e :
  in_flight w = Awaiting c k :: after ->
  backend _ c = inl e ->
  rejects w e (settle_first env backend w).
Proof.
  intros Hin Hb. unfold settle_first. rewrite Hin, Hb.
  apply (rejects_settle env w [] after X c k e). exact Hin.
Qed.

(** C4, as stated, fails: when the forward pass of the first frame rejects,
    the rejection ends up as an unhandled promise rejection, no tick is
    scheduled and no job of the pump is left. *)
Lemma C4_rejection_counterexample :
  reachable Fixture.canvas 100%float 0.5%float 0.25%float Fixture.inputShape
            Fixture.started /\
  rejects Fixture.started (LibraryError 1) Fixture.net_rejected /\
  unhandled Fixture.net_rejected = [LibraryError 1] /\
  scheduled Fixture.net_rejected = 0 /\
  stopped Fixture.canvas 100%float 0.5%float 0.25%float Fixture.inputShape
          Fixture.net_rejected.
Proof.
  split; [apply started_reachable |]. split; [| split; [| split]].
  - eapply settle_first_rejects; reflexivity.
  - reflexivity.
  - reflexivity.
  - apply idle_stopped; reflexivity.
Qed.

(** C4 (amended). When a pending backend call of the pump (the forward pass
    or the NMS) rejects, the rejection propagates through [detectImage] and
    [detectFrame] to a promise that nothing handles: it is recorded as an
    unhandled rejection, the frame is dropped without rendering, the
    callback is not invoked, no next tick is scheduled, and the pump has
    stopped. *)
Theorem C4_rejection_stops_pump canvasRef topk iouThreshold scoreThreshold
    inputShape w e w' :
  reachable canvasRef topk iouThreshold scoreThreshold inputShape w ->
  rejects w e w' ->
  unhandled w' = unhandled w ++ [e] /\
  (exists X (c : Call X),
      is_await c = true /\ history w' = history w ++ [Called c (inl e)]) /\
  scheduled w' = 0 /\
  in_flight w' = [] /\
  stopped canvasRef topk iouThreshold scoreThreshold inputShape w'.
Proof.
  intros Hreach Hrej. apply reachable_invariant in Hreach.
  destruct Hrej as [env w before after X c k e Hin].
  destruct (invariant_alone _ _ _ _ _ _ Hreach Hin) as (-> & -> & Hs & Ha & _).
  unfold settle, absorb. cbn.
  split; [reflexivity |]. split.
  - exists X, c. split; [exact Ha | now rewrite app_nil_r].
  - split; [lia |]. split; [reflexivity |].
    apply idle_stopped; cbn; [lia | reflexivity].
Qed.

Lemma C4_rejection_stops_pump_witness :
  unhandled Fixture.net_rejected = unhandled Fixture.started ++ [LibraryError 1] /\
  scheduled Fixture.net_rejected = 0.
Proof.
  destruct (C4_rejection_stops_pump Fixture.canvas 100%float 0.5%float 0.25%float
              Fixture.inputShape Fixture.started (LibraryError 1)
              Fixture.net_rejected started_reachable)
    as (H1 & _ & H2 & _).
  - eapply settle_first_rejects; reflexivity.
  - split; assumption.
Defined.

(** ** C5: sources of zero size *)




(** ** C6: the tick that finds the source closed *)

Lemma tick_ended canvasRef topk iouThreshold scoreThreshold inputShape env vidSource w :
  videoWidth vidSource = 0%Z -> srcObject vidSource = None ->
  scheduled (tick canvasRef topk iouThreshold scoreThreshold inputShape env vidSource w)
    = scheduled w /\
  in_flight (tick canvasRef topk iouThreshold scoreThreshold inputShape env vidSource w)
    = in_flight w /\
  forall ctx,
    env _ (canvas_getContext canvasRef) = inr (Some ctx) ->
    env _ (ctx_clearRect ctx 0 0 (canvas_width (ctx_canvas ctx))
                         (canvas_height (ctx_canvas ctx))) = inr tt ->
    history (tick canvasRef topk iouThreshold scoreThreshold inputShape env vidSource w)
      = history w ++
        [ Called (canvas_getContext canvasRef) (inr (Some ctx));
          Called (ctx_clearRect ctx 0 0 (canvas_width (ctx_canvas ctx))
                                (canvas_height (ctx_canvas ctx))) (inr tt) ] /\
    unhandled (tick canvasRef topk iouThreshold scoreThreshold inputShape env vidSource w)
      = unhandled w.
Proof.
  intros Hw Hs. unfold tick, detect. rewrite Hw, Hs. cbn [Z.eqb is_null andb].
  unfold call. cbn [bind advance is_await].
  destruct (env _ (canvas_getContext canvasRef)) as [e | [ctx |]] eqn:Hctx.
  - cbn. rewrite Nat.add_0_r, app_nil_r.
    split; [reflexivity |]. split; [reflexivity |].
    intros ctx' Hctx'. discriminate Hctx'.
  - cbn [bind advance is_await].
    destruct (env _ (ctx_clearRect ctx _ _ _ _)) as [e | []] eqn:Hclear.
    + cbn. rewrite Nat.add_0_r, app_nil_r.
      split; [reflexivity |]. split; [reflexivity |].
      intros ctx' Hctx' Hclear'. injection Hctx' as <-. congruence.
    + cbn. rewrite Nat.add_0_r, !app_nil_r.
      split; [reflexivity |]. split; [reflexivity |].
      intros ctx' Hctx' Hclear'. injection Hctx' as <-. split; reflexivity.
  - cbn. rewrite Nat.add_0_r, app_nil_r.
    split; [reflexivity |]. split; [reflexivity |].
    intros ctx' Hctx'. discriminate Hctx'.
Qed.

(** C6. A tick that finds [videoWidth === 0] and [srcObject === null]
    suspends on no backend call and requests no further frame: the pump
    has stopped, be it the first call of [detect] or a later one; and when
    the canvas gives its 2D context, the tick's only calls are [getContext]
    and [clearRect(0, 0, width, height)] on the output canvas. In every
    other case [detect] is the frame pipeline, with the request for the
    next frame as its callback. *)
Theorem C6_stop_on_closed_source canvasRef topk iouThreshold scoreThreshold
    inputShape env vidSource :
  (videoWidth vidSource = 0%Z /\ srcObject vidSource = None ->
   stopped canvasRef topk iouThreshold scoreThreshold inputShape
           (detectVideo canvasRef topk iouThreshold scoreThreshold inputShape
                        env vidSource) /\
   (forall w,
       reachable canvasRef topk iouThreshold scoreThreshold inputShape w ->
       0 < scheduled w ->
       stopped canvasRef topk iouThreshold scoreThreshold inputShape
               (fire canvasRef topk iouThreshold scoreThreshold inputShape
                     env vidSource w)) /\
   (forall w,
       scheduled (tick canvasRef topk iouThreshold scoreThreshold inputShape
                       env vidSource w) = scheduled w /\
       in_flight (tick canvasRef topk iouThreshold scoreThreshold inputShape
                       env vidSource w) = in_flight w /\
       forall ctx,
         env _ (canvas_getContext canvasRef) = inr (Some ctx) ->
         env _ (ctx_clearRect ctx 0 0 (canvas_width (ctx_canvas ctx))
                              (canvas_height (ctx_canvas ctx))) = inr tt ->
         history (tick canvasRef topk iouThreshold scoreThreshold inputShape
                       env vidSource w)
         = history w ++
           [ Called (canvas_getContext canvasRef) (inr (Some ctx));
             Called (ctx_clearRect ctx 0 0 (canvas_width (ctx_canvas ctx))
                                   (canvas_height (ctx_canvas ctx))) (inr tt) ])) /\
  (~ (videoWidth vidSource = 0%Z /\ srcObject vidSource = None) ->
   detect vidSource canvasRef topk iouThreshold scoreThreshold inputShape
   = detectFrame vidSource canvasRef topk iouThreshold scoreThreshold inputShape
                 (call requestAnimationFrame_detect)).
Proof.
  split.
  - intros [Hw Hs]. split; [| split].
    + destruct (tick_ended canvasRef topk iouThreshold scoreThreshold inputShape
                  env vidSource idle Hw Hs) as (H1 & H2 & _).
      apply idle_stopped; assumption.
    + intros w Hreach Hpos. apply reachable_invariant in Hreach.
      destruct Hreach as (Hle & _ & _).
      destruct (tick_ended canvasRef topk iouThreshold scoreThreshold inputShape
                  env vidSource
                  (mkWorld (pred (scheduled w)) (in_flight w) (unhandled w)
                           (history w)) Hw Hs) as (H1 & H2 & _).
      apply idle_stopped; unfold fire.
      * rewrite H1. cbn. lia.
      * rewrite H2. cbn. destruct (in_flight w); [reflexivity | cbn in Hle; lia].
    + intros w.
      destruct (tick_ended canvasRef topk iouThreshold scoreThreshold inputShape
                  env vidSource w Hw Hs) as (H1 & H2 & H3).
      split; [exact H1 |]. split; [exact H2 |].
      intros ctx Hctx Hclear. apply (H3 ctx Hctx Hclear).
  - intros Hnot. unfold detect.
    destruct (Z.eqb_spec (videoWidth vidSource) 0) as [Hw | Hw]; [| reflexivity].
    destruct (srcObject vidSource) as [s |] eqn:Hs; [reflexivity |].
    exfalso. apply Hnot. split; [exact Hw | reflexivity].
Qed.

Lemma C6_stop_on_closed_source_witness :
  stopped Fixture.canvas 100%float 0.5%float 0.25%float Fixture.inputShape
          Fixture.ended /\
  count is_clear (history Fixture.ended) = 1.
Proof.
  destruct (C6_stop_on_closed_source Fixture.canvas 100%float 0.5%float 0.25%float
              Fixture.inputShape Fixture.env Fixture.ended_video)
    as [Hstop _].
  destruct (Hstop (conj eq_refl eq_refl)) as (_ & Hfire & _).
  split.
  - apply Hfire; [apply frame_done_reachable | vm_compute; lia].
  - reflexivity.
Defined.

(** ** C7: label and probability of a decoded row *)

(** C7, as stated, fails on a row with a NaN class score: [Math.max]
    answers NaN, [indexOf] finds NaN nowhere, and the box gets label -1 and
    probability NaN although the largest score, 0.5, stands at index 0. *)
Lemma C7_nan_score_counterexample :
  label (decode_row 1 1 [100; 50; 40; 20; 0.5; nan]%float) = (-1)%Z /\
  probability (decode_row 1 1 [100; 50; 40; 20; 0.5; nan]%float) = nan /\
  ~ (exists i : nat,
        label (decode_row 1 1 [100; 50; 40; 20; 0.5; nan]%float) = Z.of_nat i).
Proof.
  split; [reflexivity |]. split; [reflexivity |].
  intros [i Hi]. vm_compute in Hi. destruct i; discriminate Hi.
Qed.

(** C7 (amended). For every row with at least one class score and no NaN
    among its class scores, the probability of the decoded box is the
    maximum class score (no score is above it and one equals it) and the
    label is the first index at which that maximum occurs. In particular
    the scores [[0.5, 0.5]] give label 0. *)
Theorem C7_label_is_first_argmax xRatio yRatio data :
  JS.slice_from data 4 <> [] ->
  no_nan (JS.slice_from data 4) ->
  probability (decode_row xRatio yRatio data) = JS.Math_max (JS.slice_from data 4) /\
  (forall s, In s (JS.slice_from data 4) ->
             (s <=? probability (decode_row xRatio yRatio data))%float = true) /\
  (exists i,
      label (decode_row xRatio yRatio data) = Z.of_nat i /\
      i < length (JS.slice_from data 4) /\
      (nth i (JS.slice_from data 4) nan
         =? probability (decode_row xRatio yRatio data))%float = true /\
      (forall j, j < i ->
         (nth j (JS.slice_from data 4) nan
            =? probability (decode_row xRatio yRatio data))%float = false)) /\
  (forall cx cy w h,
      label (decode_row xRatio yRatio [cx; cy; w; h; 0.5; 0.5]%float) = 0%Z).
Proof.
  intros Hne Hnan.
  destruct (Math_max_spec _ Hne Hnan) as [Hub Hattained].
  split; [reflexivity |]. split; [exact Hub |]. split; [| reflexivity].
  destruct (indexOf_from_first _ _ Hattained 0%Z) as (i & Hi & Hlt & Hat & Hfirst).
  exists i. repeat split; assumption.
Qed.

Lemma C7_label_is_first_argmax_witness :
  label (decode_row 2 1 [100; 50; 40; 20; 0.25; 0.75; 0.75]%float) = 1%Z /\
  probability (decode_row 2 1 [100; 50; 40; 20; 0.25; 0.75; 0.75]%float)
    = 0.75%float.
Proof.
  destruct (C7_label_is_first_argmax 2 1
              [100; 50; 40; 20; 0.25; 0.75; 0.75]%float)
    as (Hp & _ & _ & _).
  - discriminate.
  - intros x Hx. simpl in Hx.
    destruct Hx as [<- | [<- | [<- | []]]]; reflexivity.
  - split; [reflexivity | exact Hp].
Defined.

(** ** C8: release of the native buffers *)

(** C8, as stated, fails: when the forward pass rejects, [detectImage]
    ends with that rejection; the three matrices of [preprocessing] have
    been released, but the input blob, created by [cv.blobFromImage], is
    never released. *)
Lemma C8_leak_counterexample :
  snd (run Fixture.env_net_rejects
           (detectImage Fixture.image Fixture.canvas 100 0.5 0.25
                        Fixture.inputShape no_callback))
    = inl (LibraryError 1) /\
  count (is_alloc b_input)
        (fst (run Fixture.env_net_rejects
                  (detectImage Fixture.image Fixture.canvas 100 0.5 0.25
                               Fixture.inputShape no_callback))) = 1 /\
  count (is_delete b_input)
        (fst (run Fixture.env_net_rejects
                  (detectImage Fixture.image Fixture.canvas 100 0.5 0.25
                               Fixture.inputShape no_callback))) = 0.
Proof. repeat split. Qed.

Ltac released_paths :=
  repeat split; intros;
  repeat match goal with b : buffer |- _ => destruct b end;
  try congruence;
  repeat (progress rewrite ?count_cons, ?count_app, ?count_nil);
  repeat match goal with
  | H : buffer_free ?t |- context [count (is_alloc ?b') ?t] =>
      rewrite (proj1 (H b'))
  | H : buffer_free ?t |- context [count (is_delete ?b') ?t] =>
      rewrite (proj2 (H b'))
  end;
  cbn [is_alloc is_delete buffer_eqb];
  try congruence; try discriminate; try lia.

(** Once [preprocessing] has returned, whatever happens next: the four
    buffers exist and the three matrices have been released. *)
Lemma detectImage_after_preprocessing env image canvas topk iouThreshold
    scoreThreshold inputShape callback tr r trp v :
  buffer_free (fst (run env callback)) ->
  run env (preprocessing image (nth_error (skipn 2 inputShape) 0)
                         (nth_error (skipn 2 inputShape) 1)) = (trp, inr v) ->
  run env (detectImage image canvas topk iouThreshold scoreThreshold inputShape
                       callback) = (tr, r) ->
  (forall b, count (is_alloc b) tr = 1) /\
  (forall b, b <> b_input -> count (is_delete b) tr = 1).
Proof.
  intros Hfree Hp H. unfold detectImage in H. cbv zeta in H.
  rewrite run_bind, Hp in H. destruct v as [[input xRatio] yRatio].
  apply preprocessing_returns in Hp. destruct Hp as (mat & _ & Hp).
  cbv zeta in Hp. destruct Hp as (_ & _ & ->).
  destruct (run env (bind (call (ort_Tensor _ _ _)) _)) as [tr' r'] eqn:H'.
  injection H as <- <-.
  unfold call in H'. cbn [bind run] in H'.
  run_paths H' env; try solve [injection H' as <- <-; released_paths].
  all: match type of H' with
       | context [match ?o with Some _ => _ | None => _ end] =>
           destruct o as [selected |]
       end; cbn [run] in H';
    [| cbv iota beta in H'; injection H' as <- <-; released_paths].
  run_paths H' env; try solve [injection H' as <- <-; released_paths].
  rewrite run_bind in H'.
  destruct (run env callback) as [trc [e | []]]; cbn [fst] in Hfree;
    cbv iota beta in H'; [injection H' as <- <-; released_paths |].
  cbn [run] in H'.
  run_paths H' env; injection H' as <- <-; released_paths.
Qed.

(** What [preprocessing] has released when it throws, and that it calls
    no backend. *)
Lemma preprocessing_throws env source mw mh tr e :
  run env (preprocessing source mw mh) = (tr, inl e) ->
  count is_rejected tr = 0 /\
  count (is_delete b_matPad) tr = 0 /\
  (count (is_alloc b_input) tr = 0 -> forall b, count (is_delete b) tr = 0).
Proof.
  intros H. unfold preprocessing, JS.Math_max_int, call in H.
  cbn [bind run] in H.
  run_paths H env; try discriminate H; injection H as <- <-;
    repeat split; intros; try discriminate;
    repeat match goal with b : buffer |- _ => destruct b end; reflexivity.
Qed.

(** C8 (amended). The buffers are released by plain [delete()] calls, with
    no [try]/[finally]. For a callback that touches no buffer, on every
    exit path of [detectImage] no buffer is released more than once, or
    without having been created, and:
    - when the invocation completes, each of the four buffers (the read,
      colour-converted and padded matrices and the input blob) has been
      created once and released exactly once;
    - when it fails, the blob is never released;
    - on every path on which [preprocessing] has returned, which is every
      path on which a backend call rejects, the four buffers have been
      created once and each of the three matrices has been released exactly
      once: of the buffers, the blob alone leaks;
    - on the paths on which [preprocessing] itself throws, the padded
      matrix is never released, and nothing is released at all unless the
      blob had been built. *)
Theorem C8_buffer_release env image canvas topk iouThreshold scoreThreshold
    inputShape callback tr r :
  buffer_free (fst (run env callback)) ->
  run env (detectImage image canvas topk iouThreshold scoreThreshold inputShape
                       callback) = (tr, r) ->
  (forall b, count (is_delete b) tr <= count (is_alloc b) tr <= 1) /\
  (r = inr tt ->
   forall b, count (is_alloc b) tr = 1 /\ count (is_delete b) tr = 1) /\
  (r <> inr tt -> count (is_delete b_input) tr = 0) /\
  ((exists v,
       snd (run env (preprocessing image (nth_error (skipn 2 inputShape) 0)
                                   (nth_error (skipn 2 inputShape) 1))) = inr v) \/
   1 <= count is_rejected tr ->
   (forall b, count (is_alloc b) tr = 1) /\
   (forall b, b <> b_input -> count (is_delete b) tr = 1)) /\
  ((exists e,
       snd (run env (preprocessing image (nth_error (skipn 2 inputShape) 0)
                                   (nth_error (skipn 2 inputShape) 1))) = inl e) ->
   count (is_delete b_matPad) tr = 0 /\
   (count (is_alloc b_input) tr = 0 -> forall b, count (is_delete b) tr = 0)).
Proof.
  intros Hfree H.
  pose proof (detectImage_buffers env image canvas topk iouThreshold scoreThreshold
                inputShape callback tr r Hfree H) as Hall.
  split; [intros b; destruct (Hall b) as (H1 & H2 & _); split; assumption |].
  split; [intros Hr b; destruct (Hall b) as (_ & _ & H3 & _); exact (H3 Hr) |].
  split; [intros Hr; destruct (Hall b_input) as (_ & _ & _ & H4); exact (H4 Hr) |].
  destruct (run env (preprocessing image (nth_error (skipn 2 inputShape) 0)
                                   (nth_error (skipn 2 inputShape) 1)))
    as [trp [e | v]] eqn:Hp; cbn [snd].
  - (* [preprocessing] throws: the trace is its trace *)
    assert (Htr : tr = trp).
    { unfold detectImage in H. cbv zeta in H. rewrite run_bind, Hp in H.
      injection H as <- _. reflexivity. }
    subst tr. destruct (preprocessing_throws _ _ _ _ _ _ Hp) as (Hnb & Hpad & Hnone).
    split.
    + intros [[v Hv] | Hrej]; [discriminate Hv | lia].
    + intros _. split; assumption.
  - split.
    + intros _.
      exact (detectImage_after_preprocessing env image canvas topk iouThreshold
               scoreThreshold inputShape callback tr r trp v Hfree Hp H).
    + intros [e He]. discriminate He.
Qed.

Lemma C8_buffer_release_witness :
  count (is_alloc b_matPad)
        (fst (run Fixture.env_net_rejects
                  (detectImage Fixture.image Fixture.canvas 100 0.5 0.25
                               Fixture.inputShape
                               (call requestAnimationFrame_detect)))) = 1 /\
  count (is_delete b_matPad)
        (fst (run Fixture.env_net_rejects
                  (detectImage Fixture.image Fixture.canvas 100 0.5 0.25
                               Fixture.inputShape
                               (call requestAnimationFrame_detect)))) = 1 /\
  count (is_alloc b_input)
        (fst (run Fixture.env_net_rejects
                  (detectImage Fixture.image Fixture.canvas 100 0.5 0.25
                               Fixture.inputShape
                               (call requestAnimationFrame_detect)))) = 1 /\
  count (is_delete b_input)
        (fst (run Fixture.env_net_rejects
                  (detectImage Fixture.image Fixture.canvas 100 0.5 0.25
                               Fixture.inputShape
                               (call requestAnimationFrame_detect)))) = 0.
Proof.
  destruct (C8_buffer_release Fixture.env_net_rejects Fixture.image Fixture.canvas
              100 0.5 0.25 Fixture.inputShape
              (call requestAnimationFrame_detect)
              (fst (run Fixture.env_net_rejects
                        (detectImage Fixture.image Fixture.canvas 100 0.5 0.25
                                     Fixture.inputShape
                                     (call requestAnimationFrame_detect))))
              (snd (run Fixture.env_net_rejects
                        (detectImage Fixture.image Fixture.canvas 100 0.5 0.25
                                     Fixture.inputShape
                                     (call requestAnimationFrame_detect)))))
    as (_ & _ & Hleak & Hmat & _).
  - intros b'. split; reflexivity.
  - reflexivity.
  - destruct Hmat as [Ha Hd]; [right; vm_compute; lia |].
    split; [apply Ha |]. split; [apply Hd; discriminate |].
    split; [apply Ha |]. apply Hleak. discriminate.
Defined.

(** ** C9: one inference at a time *)

(** C9. In every world the pump can reach, at most one invocation is
    waiting on the backend; a tick is scheduled only while none is; and in
    the history of calls every [requestAnimationFrame(detect)] directly
    follows a completed [renderBoxes] call. So a tick, and with it the next
    inference, starts only after the current frame's inference has settled
    and its boxes have been rendered. *)
Theorem C9_one_inference_in_flight canvasRef topk iouThreshold scoreThreshold
    inputShape w :
  reachable canvasRef topk iouThreshold scoreThreshold inputShape w ->
  length (in_flight w) <= 1 /\
  scheduled w + length (in_flight w) <= 1 /\
  Forall (fun f => match f with Awaiting c _ => is_await c = true end)
         (in_flight w) /\
  raf_follows_render false (history w).
Proof.
  intros Hreach. apply reachable_invariant in Hreach.
  destruct Hreach as (Hle & Hres & Hh).
  split; [lia |]. split; [exact Hle |]. split; [| exact Hh].
  eapply Forall_impl; [| exact Hres]. intros [X c k] [Ha _]. exact Ha.
Qed.

Lemma C9_one_inference_in_flight_witness :
  length (in_flight Fixture.frame_done) <= 1 /\
  scheduled Fixture.frame_done = 1 /\
  raf_follows_render false (history Fixture.frame_done).
Proof.
  destruct (C9_one_inference_in_flight Fixture.canvas 100%float 0.5%float
              0.25%float Fixture.inputShape Fixture.frame_done frame_done_reachable)
    as (H1 & _ & _ & H3).
  split; [exact H1 |]. split; [reflexivity | exact H3].
Defined.

(** ** C10: rows without class scores *)

(** C10. A row of width exactly 4 has no class scores after the bounding
    quad. When [detectImage] completes, the list handed to [renderBoxes]
    still holds a box for every such row of the selected tensor: its label
    is -1 (no class id) and its probability is -Infinity (below the range
    [0, 1]). *)
Theorem C10_row_without_scores env image canvas topk iouThreshold scoreThreshold
    inputShape callback tr :
  run env (detectImage image canvas topk iouThreshold scoreThreshold inputShape
                       callback) = (tr, inr tt) ->
  exists output0 config selected boxes,
    env _ (nms_run output0 config) = inr (Some selected) /\
    hd_error (rendered tr) = Some boxes /\
    forall idx,
      idx < nth 1 (dims selected) 0 ->
      length (row selected idx) = 4 ->
      exists box,
        nth_error boxes idx = Some box /\
        label box = (-1)%Z /\
        probability box = neg_infinity /\
        (label box < 0)%Z /\
        (probability box <? 0)%float = true.
Proof.
  intros H. apply detectImage_renders in H.
  destruct H as (trp & input & xRatio & yRatio & output0 & config & selected &
                 _ & Hn & Hr).
  exists output0, config, selected, (decode xRatio yRatio selected).
  split; [exact Hn |]. split; [exact Hr |].
  intros idx Hidx Hlen.
  exists (decode_row xRatio yRatio (row selected idx)).
  split; [apply decode_nth; exact Hidx |].
  destruct (row selected idx) as [| cx [| cy [| w [| h [| s scores]]]]];
    try discriminate Hlen.
  repeat split.
Qed.

Lemma C10_row_without_scores_witness :
  exists tr box,
    run (Fixture.env_with 4 2 (mkTensor [100; 50; 40; 20]%float [1; 1; 4]))
        (detectImage Fixture.image Fixture.canvas 100 0.5 0.25
                     Fixture.inputShape no_callback) = (tr, inr tt) /\
    nth_error (hd [] (rendered tr)) 0 = Some box /\
    label box = (-1)%Z /\ probability box = neg_infinity.
Proof.
  edestruct (C10_row_without_scores
               (Fixture.env_with 4 2 (mkTensor [100; 50; 40; 20]%float [1; 1; 4]))
               Fixture.image Fixture.canvas 100%float 0.5%float 0.25%float
               Fixture.inputShape no_callback)
    as (output0 & config & selected & boxes & Hn & Hr & Hrow);
    [vm_compute; reflexivity |].
  vm_compute in Hn. injection Hn as <-.
  vm_compute in Hr. injection Hr as <-.
  destruct (Hrow 0) as (box & Hbox & Hl & Hp & _); [simpl; lia | reflexivity |].
  eexists _, box. split; [reflexivity |].
  split; [exact Hbox |]. split; assumption.
Defined.

(** * Further properties of the pipeline *)

(** ** More binary64 arithmetic

    Multiplying by 1 changes no number; the quotient of a positive integer
    by a smaller one is at least 1; an integer below 2^24 is a binary32
    value. *)

Open Scope Z_scope.

Lemma digits2_shift m k :
  0 <= k -> Zdigits2 (Zpos m * 2 ^ k) = Zpos (digits2_pos m) + k.
Proof.
  intros Hk. pose proof (digits2_bounds m) as [Hlo Hhi].
  assert (Hp : 0 < 2 ^ k) by (apply Z.pow_pos_nonneg; lia).
  destruct (Zpos m * 2 ^ k) as [| p | p] eqn:Hmk; try lia.
  change (Zdigits2 (Zpos p)) with (Zpos (digits2_pos p)).
  apply digits2_unique. rewrite <- Hmk.
  replace (Zpos (digits2_pos m) + k - 1) with (Zpos (digits2_pos m) - 1 + k) by lia.
  rewrite !Z.pow_add_r by lia. split.
  - apply Z.mul_le_mono_nonneg_r; lia.
  - apply Z.mul_lt_mono_pos_r; lia.
Qed.

Lemma canonical_fexp m e :
  bounded prec emax m e = true ->
  fexp prec emax (Zpos (digits2_pos m) + e) = e /\ e <= emax - prec.
Proof.
  unfold bounded, canonical_mantissa. intros H.
  apply andb_true_iff in H. destruct H as [H1 H2].
  apply Z.eqb_eq in H1. apply Z.leb_le in H2. split; assumption.
Qed.

Lemma SFmul_one_r x :
  valid_binary x = true ->
  SFmul prec emax x (S754_finite false (2 ^ 52)%positive (-52)) = x.
Proof.
  destruct x as [[|] | [|] | | s m e]; try reflexivity.
  cbn [valid_binary]. intros Hb.
  destruct (canonical_fexp m e Hb) as [Hf He].
  unfold SFmul. rewrite xorb_false_r, Pos.mul_comm.
  unfold binary_round_aux, shr_fexp.
  assert (Hd : Zdigits2 (Zpos (2 ^ 52 * m)) = Zpos (digits2_pos m) + 52).
  { rewrite Pos2Z.inj_mul, Z.mul_comm. change (Zpos (2 ^ 52)) with (2 ^ 52).
    apply digits2_shift. lia. }
  rewrite Hd.
  replace (Zpos (digits2_pos m) + 52 + (e + -52)) with (Zpos (digits2_pos m) + e) by lia.
  rewrite Hf. replace (e - (e + -52)) with 52 by lia.
  cbn [shr].
  assert (Hs : iter_pos shr_1 52 (shr_record_of_loc (Zpos (2 ^ 52 * m)) loc_Exact)
               = Build_shr_record (Zpos m) false false)
    by (vm_compute; reflexivity).
  rewrite Hs.
  cbn [shr_m loc_of_shr_record round_nearest_even].
  replace (e + -52 + 52) with e by lia.
  change (Zdigits2 (Zpos m)) with (Zpos (digits2_pos m)).
  rewrite Hf, Z.sub_diag. cbn [shr shr_record_of_loc shr_m].
  destruct (Z.leb_spec e (emax - prec)); [reflexivity | lia].
Qed.

Lemma SFleb_one m e :
  2 ^ 52 <= Zpos m -> -52 <= e ->
  SFleb (S754_finite false (2 ^ 52)%positive (-52)) (S754_finite false m e) = true.
Proof.
  intros Hm He. unfold SFleb, SFcompare.
  change (Pos.compare_cont Eq) with Pos.compare.
  destruct (Z.compare_spec (-52) e); try reflexivity; try lia.
  destruct (Pos.compare_spec (2 ^ 52) m) as [| |Hgt]; try reflexivity.
  assert (Zpos m < Zpos (2 ^ 52)) by exact Hgt.
  change (Zpos (2 ^ 52)) with (2 ^ 52) in *. lia.
Qed.

Lemma round_finish_ge_one mrs' e' :
  2 ^ 52 <= shr_m mrs' < 2 ^ 53 -> -52 <= e' <= 970 ->
  SFleb (S754_finite false (2 ^ 52)%positive (-52)) (round_finish false mrs' e') = true.
Proof.
  intros Hm He. rewrite round_finish_normal by lia.
  pose proof (round_nearest_even_bounds (shr_m mrs') (loc_of_shr_record mrs')) as Hr.
  destruct (Z.ltb_spec (round_nearest_even (shr_m mrs') (loc_of_shr_record mrs'))
                       (2 ^ 53)).
  - apply SFleb_one; [rewrite Z2Pos.id by lia; lia | lia].
  - apply SFleb_one; [change (Zpos (2 ^ 52)) with (2 ^ 52); lia | lia].
Qed.

Lemma binary_round_aux_ge_one q e l :
  2 ^ 52 <= q < 2 ^ 54 -> -53 <= e <= 969 -> (e = -53 -> 2 ^ 53 <= q) ->
  SFleb (S754_finite false (2 ^ 52)%positive (-52))
        (binary_round_aux prec emax false q e l) = true.
Proof.
  intros Hq He Hlow. rewrite binary_round_aux_finish. unfold shr_fexp.
  destruct q as [| p | p]; try lia.
  destruct (Z.lt_ge_cases (Zpos p) (2 ^ 53)) as [Hlt | Hge].
  - assert (Hd : Zdigits2 (Zpos p) = 53)
      by (simpl; apply digits2_unique; change (53 - 1) with 52; lia).
    rewrite Hd.
    replace (fexp prec emax (53 + e) - e) with 0
      by (unfold fexp, emin, prec, emax; lia).
    cbn [shr fst snd].
    apply round_finish_ge_one; [rewrite shr_m_of_loc; lia | lia].
  - assert (Hd : Zdigits2 (Zpos p) = 54)
      by (simpl; apply digits2_unique; change (54 - 1) with 53; lia).
    rewrite Hd.
    replace (fexp prec emax (54 + e) - e) with 1
      by (unfold fexp, emin, prec, emax; lia).
    cbn [shr fst snd iter_pos].
    assert (Hs : shr_m (shr_1 (shr_record_of_loc (Zpos p) l)) = Zpos p / 2).
    { rewrite shr_m_shr_1, shr_m_of_loc by (rewrite shr_m_of_loc; lia).
      apply Z.div2_div. }
    assert (Hb : 2 ^ 52 <= Zpos p / 2 < 2 ^ 53).
    { split.
      - apply Z.div_le_lower_bound; [lia |]. change (2 * 2 ^ 52) with (2 ^ 53). lia.
      - apply Z.div_lt_upper_bound; [lia |]. change (2 * 2 ^ 53) with (2 ^ 54). lia. }
    apply round_finish_ge_one; [rewrite Hs; exact Hb | lia].
Qed.

Lemma of_Z_div_ge_one M m :
  0 < m <= M -> M < 2 ^ 53 -> (1 <=? JS.of_Z M / JS.of_Z m)%float = true.
Proof.
  intros Hm HM.
  rewrite leb_spec, div_spec, !of_Z_spec by lia.
  change (Prim2SF 1) with (S754_finite false (2 ^ 52)%positive (-52)).
  pose proof (mantissa_normal M ltac:(lia)) as HmM.
  pose proof (mantissa_normal m ltac:(lia)) as Hmm.
  assert (HlM : 0 <= Z.log2 M <= 52).
  { split; [apply Z.log2_nonneg |].
    assert (Z.log2 M < 53) by (apply Z.log2_lt_pow2; lia). lia. }
  assert (Hlm : 0 <= Z.log2 m <= Z.log2 M).
  { split; [apply Z.log2_nonneg | apply Z.log2_le_mono; lia]. }
  unfold SF64div.
  rewrite SFdiv_normal
    by (rewrite ?Z2Pos.id by lia; unfold exponent; lia).
  rewrite !Z2Pos.id by lia.
  unfold exponent. cbn [xorb].
  apply binary_round_aux_ge_one.
  - split.
    + apply Z.div_le_lower_bound; [lia |]. lia.
    + apply Z.div_lt_upper_bound; [lia |]. lia.
  - lia.
  - intros He. assert (Hl : Z.log2 m = Z.log2 M) by lia.
    apply Z.div_le_lower_bound; [lia |].
    unfold mantissa. rewrite Hl.
    assert (0 < 2 ^ (52 - Z.log2 M)) by (apply Z.pow_pos_nonneg; lia).
    nia.
Qed.

(** A 53-bit mantissa whose low 29 bits are zero rounds to binary32
    without loss, and comes back unchanged. *)
Lemma binary32_round_exact p e :
  2 ^ 23 <= Zpos p < 2 ^ 24 -> -52 <= e <= 75 ->
  binary_round 24 128 false (2 ^ 29 * p)%positive e = S754_finite false p (e + 29).
Proof.
  intros Hp He. unfold binary_round, shl_align.
  assert (Hd : Zpos (digits2_pos (2 ^ 29 * p)) = 53).
  { apply digits2_unique. rewrite Pos2Z.inj_mul.
    change (Zpos (2 ^ 29)) with (2 ^ 29).
    change (2 ^ (53 - 1)) with (2 ^ 29 * 2 ^ 23).
    change (2 ^ 53) with (2 ^ 29 * 2 ^ 24). lia. }
  rewrite Hd.
  replace (fexp 24 128 (53 + e)) with (e + 29) by (unfold fexp, emin; lia).
  replace (e + 29 - e) with 29 by lia. cbv iota beta.
  unfold binary_round_aux, shr_fexp.
  change (Zdigits2 (Zpos (2 ^ 29 * p))) with (Zpos (digits2_pos (2 ^ 29 * p))).
  rewrite Hd.
  replace (fexp 24 128 (53 + e) - e) with 29 by (unfold fexp, emin; lia).
  cbn [shr].
  assert (Hs : iter_pos shr_1 29 (shr_record_of_loc (Zpos (2 ^ 29 * p)) loc_Exact)
               = Build_shr_record (Zpos p) false false)
    by (vm_compute; reflexivity).
  rewrite Hs. cbn [shr_m loc_of_shr_record round_nearest_even].
  assert (Hd' : Zdigits2 (Zpos p) = 24)
    by (apply digits2_unique; change (24 - 1) with 23; lia).
  rewrite Hd'.
  replace (fexp 24 128 (24 + (e + 29)) - (e + 29)) with 0
    by (unfold fexp, emin; lia).
  cbn [shr shr_record_of_loc shr_m].
  destruct (Z.leb_spec (e + 29) (128 - 24)); [reflexivity | lia].
Qed.

Lemma binary64_of_binary32 p e :
  2 ^ 23 <= Zpos p < 2 ^ 24 -> -1045 <= e <= 0 ->
  binary_round prec emax false p e = S754_finite false (2 ^ 29 * p)%positive (e - 29).
Proof.
  intros Hp He. unfold binary_round, shl_align.
  assert (Hd : Zpos (digits2_pos p) = 24)
    by (apply digits2_unique; change (24 - 1) with 23; lia).
  rewrite Hd.
  replace (fexp prec emax (24 + e)) with (e - 29)
    by (unfold fexp, emin, prec, emax; lia).
  replace (e - 29 - e) with (-29) by lia. cbv iota beta.
  assert (Hs : Pos.iter xO p 29 = (2 ^ 29 * p)%positive)
    by (vm_compute; reflexivity).
  rewrite Hs. apply binary_round_aux_exact; [| lia].
  rewrite Pos2Z.inj_mul. change (Zpos (2 ^ 29)) with (2 ^ 29).
  change (2 ^ 52) with (2 ^ 29 * 2 ^ 23). change (2 ^ 53) with (2 ^ 29 * 2 ^ 24).
  lia.
Qed.

Lemma fround_of_Z n : 0 <= n < 2 ^ 24 -> fround (JS.of_Z n) = JS.of_Z n.
Proof.
  intros Hn. destruct (Z.eq_dec n 0) as [-> | Hnz]; [reflexivity |].
  assert (H53 : 2 ^ 24 < 2 ^ 53) by (apply Z.pow_lt_mono_r; lia).
  assert (Hpos : 0 < n < 2 ^ 53) by lia.
  assert (Hl : 0 <= Z.log2 n <= 23).
  { split; [apply Z.log2_nonneg |].
    assert (Z.log2 n < 24) by (apply Z.log2_lt_pow2; lia). lia. }
  destruct (Z.log2_spec n ltac:(lia)) as [Hlo Hhi].
  set (q := n * 2 ^ (23 - Z.log2 n)).
  assert (Hq : 2 ^ 23 <= q < 2 ^ 24).
  { unfold q.
    assert (Hp : 2 ^ Z.log2 n * 2 ^ (23 - Z.log2 n) = 2 ^ 23)
      by (rewrite <- Z.pow_add_r by lia; f_equal; lia).
    assert (Hp' : 2 ^ Z.succ (Z.log2 n) * 2 ^ (23 - Z.log2 n) = 2 ^ 24)
      by (rewrite <- Z.pow_add_r by lia; f_equal; lia).
    assert (0 < 2 ^ (23 - Z.log2 n)) by (apply Z.pow_pos_nonneg; lia).
    nia. }
  assert (Hm : Z.to_pos (mantissa n) = (2 ^ 29 * Z.to_pos q)%positive).
  { apply Pos2Z.inj. rewrite Pos2Z.inj_mul, !Z2Pos.id by (unfold mantissa; nia).
    unfold mantissa, q. change (Zpos (2 ^ 29)) with (2 ^ 29).
    replace (52 - Z.log2 n) with (29 + (23 - Z.log2 n)) by lia.
    rewrite Z.pow_add_r by lia. ring. }
  unfold fround. rewrite (of_Z_spec n Hpos), Hm.
  rewrite binary32_round_exact
    by (rewrite ?Z2Pos.id by lia; unfold exponent; lia).
  rewrite binary64_of_binary32
    by (rewrite ?Z2Pos.id by lia; unfold exponent; lia).
  replace (exponent n + 29 - 29) with (exponent n) by lia.
  rewrite <- Hm, <- (of_Z_spec n Hpos). apply SF2Prim_Prim2SF.
Qed.

Close Scope Z_scope.

Lemma mul_one_r x : (x * 1)%float = x.
Proof.
  apply Prim2SF_inj. rewrite mul_spec.
  change (Prim2SF 1) with (S754_finite false (2 ^ 52)%positive (-52)).
  apply SFmul_one_r. apply Prim2SF_valid.
Qed.

Lemma mul_nan_l x : (nan * x)%float = nan.
Proof.
  apply Prim2SF_inj. rewrite mul_spec.
  change (Prim2SF nan) with S754_nan. reflexivity.
Qed.

Lemma eqb_nan_r x : (x =? nan)%float = false.
Proof.
  rewrite eqb_spec. change (Prim2SF nan) with S754_nan.
  destruct (Prim2SF x) as [[|] | [|] | | [|] m e]; reflexivity.
Qed.

(** ** [Math.max] and [indexOf] on any scores *)

Lemma indexOf_from_nan a k : JS.indexOf_from k a nan = (-1)%Z.
Proof.
  revert k. induction a as [| x rest IH]; intros k; simpl; [reflexivity |].
  rewrite eqb_nan_r. apply IH.
Qed.

Lemma indexOf_from_range a v k :
  JS.indexOf_from k a v = (-1)%Z \/
  (k <= JS.indexOf_from k a v < k + Z.of_nat (length a))%Z.
Proof.
  revert k. induction a as [| x rest IH]; intros k; simpl; [left; reflexivity |].
  destruct (x =? v)%float; [right; lia |].
  destruct (IH (k + 1)%Z) as [H | H]; [left; exact H | right; lia].
Qed.

Lemma Math_max_from_nan l :
  (exists x, In x l /\ is_nan x = true) -> forall h, JS.Math_max_from h l = nan.
Proof.
  induction l as [| y rest IH]; intros (x & Hin & Hx) h; [destruct Hin |].
  simpl. destruct (is_nan y) eqn:Hy; [reflexivity |].
  destruct Hin as [-> | Hin]; [congruence |].
  assert (Hrest : exists x, In x rest /\ is_nan x = true) by (exists x; auto).
  destruct (JS.is_pos_zero y && JS.is_neg_zero h); [apply IH; exact Hrest |].
  destruct (h <? y)%float; apply IH; exact Hrest.
Qed.

Lemma Math_max_from_no_nan l h :
  no_nan l -> is_nan h = false -> is_nan (JS.Math_max_from h l) = false.
Proof.
  intros Hl Hh.
  destruct (Math_max_from_spec l Hl h Hh) as (_ & _ & [-> | Hin]);
    [exact Hh | apply Hl; exact Hin].
Qed.

Lemma nan_free_or_not l :
  no_nan l \/ exists x, In x l /\ is_nan x = true.
Proof.
  destruct (existsb is_nan l) eqn:H.
  - right. apply existsb_exists. exact H.
  - left. intros x Hx. destruct (is_nan x) eqn:Hn; [| reflexivity].
    assert (existsb is_nan l = true) by (apply existsb_exists; eauto). congruence.
Qed.

(** ** The decoder on any selected tensor *)

(** X1. Whatever the row, the label of the decoded box is an integer from
    -1 up to the number of class scores minus one. It is -1 exactly when
    the row has no class score or one of its class scores is NaN, and the
    probability is NaN exactly when one of the class scores is NaN. *)
Theorem decode_label_range xRatio yRatio data :
  (-1 <= label (decode_row xRatio yRatio data)
      < Z.of_nat (length (JS.slice_from data 4)))%Z /\
  (label (decode_row xRatio yRatio data) = (-1)%Z <->
   JS.slice_from data 4 = [] \/
   exists s, In s (JS.slice_from data 4) /\ is_nan s = true) /\
  (is_nan (probability (decode_row xRatio yRatio data)) = true <->
   exists s, In s (JS.slice_from data 4) /\ is_nan s = true).
Proof.
  cbn [decode_row label probability].
  set (scores := JS.slice_from data 4).
  split; [| split].
  - unfold JS.indexOf.
    destruct (indexOf_from_range scores (JS.Math_max scores) 0) as [H | H].
    + rewrite H. destruct (nan_free_or_not scores) as [Hfree | Hnan].
      * destruct scores as [| s rest] eqn:Hs; [simpl; lia |].
        cbn [length]. lia.
      * destruct Hnan as (x & Hin & _). destruct scores; [destruct Hin |].
        cbn [length]. lia.
    + lia.
  - split.
    + intros Hl. destruct scores as [| s rest] eqn:Hs; [left; reflexivity |].
      right. destruct (nan_free_or_not (s :: rest)) as [Hfree | Hnan];
        [| exact Hnan].
      destruct (Math_max_spec (s :: rest) ltac:(discriminate) Hfree) as [_ Hat].
      destruct (indexOf_from_first _ _ Hat 0%Z) as (i & Hi & _).
      unfold JS.indexOf in Hl. lia.
    + intros [-> | Hnan]; [reflexivity |].
      unfold JS.Math_max. rewrite (Math_max_from_nan _ Hnan).
      apply indexOf_from_nan.
  - split.
    + intros Hp. destruct (nan_free_or_not scores) as [Hfree | Hnan];
        [| exact Hnan].
      unfold JS.Math_max in Hp.
      rewrite (Math_max_from_no_nan scores neg_infinity Hfree eq_refl) in Hp.
      discriminate Hp.
    + intros Hnan. unfold JS.Math_max. rewrite (Math_max_from_nan _ Hnan).
      reflexivity.
Qed.

Lemma row_firstn selected idx :
  row selected idx =
  firstn (nth 2 (dims selected) 0) (skipn (idx * nth 2 (dims selected) 0) (data selected)).
Proof.
  unfold row, JS.slice. f_equal. lia.
Qed.

(** X2. The rows that the loop decodes, taken in order, are the first
    [N * rowWidth] values of [selected.data]: no value is skipped and none
    is read twice. A row that lies within the data has exactly [rowWidth]
    values, and the boxes are the decoded rows, in order. *)
Theorem rows_partition_data selected :
  (forall N,
      concat (map (row selected) (seq 0 N)) =
      firstn (N * nth 2 (dims selected) 0) (data selected)) /\
  (forall idx,
      (idx + 1) * nth 2 (dims selected) 0 <= length (data selected) ->
      length (row selected idx) = nth 2 (dims selected) 0) /\
  (forall xRatio yRatio,
      decode xRatio yRatio selected =
      map (decode_row xRatio yRatio)
          (map (row selected) (seq 0 (nth 1 (dims selected) 0)))).
Proof.
  set (W := nth 2 (dims selected) 0).
  split; [| split].
  - induction N as [| N IH]; [reflexivity |].
    rewrite seq_S, map_app, concat_app, IH. cbn [map concat plus].
    rewrite app_nil_r, row_firstn. fold W.
    rewrite firstn_skipn_comm.
    replace (S N * W) with (N * W + W) by lia.
    set (l := firstn (N * W + W) (data selected)).
    replace (firstn (N * W) (data selected)) with (firstn (N * W) l).
    + apply firstn_skipn.
    + unfold l. rewrite firstn_firstn. f_equal. lia.
  - intros idx Hlen. rewrite row_firstn. fold W.
    rewrite length_firstn, length_skipn. lia.
  - intros xRatio yRatio. rewrite decode_map, map_map. reflexivity.
Qed.

Lemma decode_row_nil xRatio yRatio :
  decode_row xRatio yRatio [] = mkBox (-1) neg_infinity [nan; nan; nan; nan].
Proof.
  unfold decode_row. cbn [JS.slice JS.slice_from firstn skipn JS.get nth
                          JS.Math_max JS.Math_max_from JS.indexOf JS.indexOf_from].
  change (nan - 0.5 * nan)%float with nan.
  rewrite !mul_nan_l. reflexivity.
Qed.

(** X3. The loop trusts [selected.dims]: a row that starts at or past the
    end of [selected.data] is empty, and its box has label -1, probability
    -Infinity and a bounding rectangle of four NaN, whatever the ratios. *)
Theorem row_past_end xRatio yRatio selected idx :
  length (data selected) <= idx * nth 2 (dims selected) 0 ->
  row selected idx = [] /\
  decode_row xRatio yRatio (row selected idx)
    = mkBox (-1) neg_infinity [nan; nan; nan; nan] /\
  (idx < nth 1 (dims selected) 0 ->
   nth_error (decode xRatio yRatio selected) idx
     = Some (mkBox (-1) neg_infinity [nan; nan; nan; nan])).
Proof.
  intros Hlen.
  assert (Hrow : row selected idx = []).
  { rewrite row_firstn, skipn_all2 by exact Hlen. apply firstn_nil. }
  split; [exact Hrow |]. rewrite Hrow, decode_row_nil.
  split; [reflexivity |].
  intros Hidx. rewrite (decode_nth _ _ _ _ Hidx), Hrow, decode_row_nil. reflexivity.
Qed.

Lemma row_past_end_witness :
  nth_error (decode 2 1 (mkTensor [100; 50; 40; 20; 0.5; 0.5]%float [1; 2; 6])) 1
    = Some (mkBox (-1) neg_infinity [nan; nan; nan; nan]).
Proof.
  apply (row_past_end 2 1 (mkTensor [100; 50; 40; 20; 0.5; 0.5]%float [1; 2; 6]) 1);
    simpl; lia.
Defined.

(** X4. For a square source (as [cv.imread] reads it, with a side below
    2^53) both ratios are exactly 1 and multiplying by 1 changes nothing:
    when [detectImage] completes, the boxes handed to [renderBoxes] are the
    rows in corner form, unscaled: [[cx - 0.5*w, cy - 0.5*h, w, h]]. *)
Theorem square_source_boxes_unscaled env image canvas topk iouThreshold
    scoreThreshold inputShape callback tr mat :
  run env (detectImage image canvas topk iouThreshold scoreThreshold inputShape
                       callback) = (tr, inr tt) ->
  env _ (cv_imread image) = inr mat ->
  rows mat = cols mat ->
  (0 < cols mat < 2 ^ 53)%Z ->
  exists output0 config selected,
    env _ (nms_run output0 config) = inr (Some selected) /\
    hd_error (rendered tr) = Some (decode 1 1 selected) /\
    forall idx cx cy w h scores,
      idx < nth 1 (dims selected) 0 ->
      row selected idx = cx :: cy :: w :: h :: scores ->
      exists box,
        nth_error (decode 1 1 selected) idx = Some box /\
        bounding box = [cx - 0.5 * w; cy - 0.5 * h; w; h]%float.
Proof.
  intros H Hread Hsq Hc. apply detectImage_renders in H.
  destruct H as (trp & input & xRatio & yRatio & output0 & config & selected &
                 Hp & Hn & Hr).
  apply preprocessing_returns in Hp. destruct Hp as (mat' & Hread' & Hp).
  cbv zeta in Hp. rewrite Hread in Hread'. injection Hread' as <-.
  destruct Hp as (Hx & Hy & _).
  rewrite Hsq, Z.max_id in Hx, Hy.
  rewrite ratio_same in Hx, Hy by exact Hc. subst xRatio yRatio.
  exists output0, config, selected.
  split; [exact Hn |]. split; [exact Hr |].
  intros idx cx cy w h scores Hidx Hrow.
  eexists. split; [apply decode_nth; exact Hidx |].
  rewrite Hrow, decode_row_bounding, !mul_one_r. reflexivity.
Qed.

Lemma square_source_boxes_unscaled_witness :
  exists tr box,
    run (Fixture.env_with 4 4 Fixture.selected)
        (detectImage Fixture.image Fixture.canvas 100 0.5 0.25
                     Fixture.inputShape no_callback) = (tr, inr tt) /\
    nth_error (hd [] (rendered tr)) 0 = Some box /\
    bounding box = [80; 40; 40; 20]%float.
Proof.
  edestruct (square_source_boxes_unscaled
               (Fixture.env_with 4 4 Fixture.selected)
               Fixture.image Fixture.canvas 100%float 0.5%float 0.25%float
               Fixture.inputShape no_callback)
    as (output0 & config & selected & Hn & Hr & Hrow);
    [vm_compute; reflexivity | reflexivity | reflexivity | cbn; lia |].
  vm_compute in Hn. injection Hn as <-.
  destruct (Hrow 0 100%float 50%float 40%float 20%float [0.5; 0.5]%float)
    as (box & Hbox & Hb); [simpl; lia | reflexivity |].
  eexists _, box. split; [reflexivity |].
  split; [| rewrite Hb; reflexivity].
  vm_compute in Hbox. vm_compute. exact Hbox.
Defined.

(** ** [preprocessing], [captureVideo] and [preprocessVideo] *)

(** X5. For a source read as a matrix with positive sides below 2^53, both
    ratios that [preprocessing] returns are at least 1, and one of them is
    exactly 1: rescaling never shrinks a box. *)
Theorem ratios_at_least_one (env : Env) source modelWidth modelHeight tr input
    xRatio yRatio mat :
  env _ (cv_imread source) = inr mat ->
  (0 < cols mat < 2 ^ 53)%Z ->
  (0 < rows mat < 2 ^ 53)%Z ->
  run env (preprocessing source modelWidth modelHeight)
    = (tr, inr (input, xRatio, yRatio)) ->
  (1 <=? xRatio)%float = true /\
  (1 <=? yRatio)%float = true /\
  (xRatio = 1%float \/ yRatio = 1%float).
Proof.
  intros Hread Hc Hr Hrun.
  apply preprocessing_returns in Hrun.
  destruct Hrun as (mat' & Hread' & Hrun). cbv zeta in Hrun.
  rewrite Hread in Hread'. injection Hread' as <-.
  destruct Hrun as (-> & -> & _).
  split; [apply of_Z_div_ge_one; lia |].
  split; [apply of_Z_div_ge_one; lia |].
  destruct (Z.le_ge_cases (rows mat) (cols mat)).
  - left. rewrite Z.max_r by assumption. apply ratio_same. lia.
  - right. rewrite Z.max_l by lia. apply ratio_same. lia.
Qed.

Lemma ratios_at_least_one_witness :
  exists input xRatio yRatio,
    snd (run Fixture.env (preprocessing Fixture.image (Some 640) (Some 640)))
      = inr (input, xRatio, yRatio) /\
    (1 <=? xRatio)%float = true /\ (1 <=? yRatio)%float = true.
Proof.
  eexists _, _, _. split; [vm_compute; reflexivity |].
  edestruct (ratios_at_least_one Fixture.env Fixture.image (Some 640) (Some 640))
    as (Hx & Hy & _);
    [reflexivity | cbn; lia | cbn; lia | vm_compute; reflexivity |].
  split; [exact Hx | exact Hy].
Defined.

Ltac count_paths :=
  repeat split; intros;
  try discriminate; try congruence;
  repeat match goal with b : buffer |- _ => destruct b end;
  try reflexivity.

(** X6. When [preprocessing] returns, each of its four buffers has been
    created once, the three matrices have been released once each, and the
    blob has not: it is the caller's to release. When [preprocessing]
    throws, neither the padded matrix nor the blob has been released; and
    nothing at all has been released unless the blob had been built. *)
Theorem preprocessing_ownership env source modelWidth modelHeight tr r :
  run env (preprocessing source modelWidth modelHeight) = (tr, r) ->
  (forall v, r = inr v ->
     forall b,
       count (is_alloc b) tr = 1 /\
       count (is_delete b) tr = if buffer_eqb b b_input then 0 else 1) /\
  (forall e, r = inl e ->
     count (is_delete b_matPad) tr = 0 /\
     count (is_delete b_input) tr = 0 /\
     (count (is_alloc b_input) tr = 0 -> forall b, count (is_delete b) tr = 0)).
Proof.
  intros H. unfold preprocessing, JS.Math_max_int, call in H.
  cbn [bind run] in H.
  run_paths H env; injection H as <- <-; count_paths.
Qed.

Lemma preprocessing_ownership_witness :
  count (is_delete b_matPad)
        (fst (run Fixture.env (preprocessing Fixture.image (Some 640) (Some 640)))) = 1 /\
  count (is_delete b_input)
        (fst (run Fixture.env (preprocessing Fixture.image (Some 640) (Some 640)))) = 0.
Proof.
  destruct (run Fixture.env (preprocessing Fixture.image (Some 640) (Some 640)))
    as [tr r] eqn:H.
  destruct (preprocessing_ownership Fixture.env Fixture.image (Some 640) (Some 640)
              tr r H) as [Hok _].
  vm_compute in H. injection H as <- <-.
  split; [exact (proj2 (Hok _ eq_refl b_matPad)) | exact (proj2 (Hok _ eq_refl b_input))].
Defined.

(** X7. Without a scale factor, a completed [captureVideo] has made three
    calls: it has created a canvas of the video's native size
    ([videoWidth] x [videoHeight]), taken its 2D context and drawn the
    video into it at the origin over that size; it returns that canvas. *)
Theorem captureVideo_native_size env video tr canvas :
  run env (captureVideo video None) = (tr, inr canvas) ->
  exists ctx,
    tr = [ Called (document_createCanvas (JS.of_Z (videoWidth video))
                                         (JS.of_Z (videoHeight video))) (inr canvas);
           Called (canvas_getContext canvas) (inr (Some ctx));
           Called (ctx_drawImage ctx video 0 0 (JS.of_Z (videoWidth video))
                                 (JS.of_Z (videoHeight video))) (inr tt) ].
Proof.
  unfold captureVideo. rewrite !mul_one_r. intros H.
  run_next H env. run_next H env.
  destruct o as [ctx |]; [| discriminate H].
  run_next H env. simpl in H. inversion H; subst; clear H.
  destruct u. exists ctx. reflexivity.
Qed.

Lemma captureVideo_native_size_witness :
  exists ctx,
    fst (run Fixture.env (captureVideo Fixture.video None)) =
    [ Called (document_createCanvas 4 8) (inr (mkCanvas 4 8));
      Called (canvas_getContext (mkCanvas 4 8)) (inr (Some ctx));
      Called (ctx_drawImage ctx Fixture.video 0 0 4 8) (inr tt) ].
Proof.
  destruct (captureVideo_native_size Fixture.env Fixture.video
              (fst (run Fixture.env (captureVideo Fixture.video None)))
              (mkCanvas 4 8)) as (ctx & H); [vm_compute; reflexivity |].
  exists ctx. exact H.
Defined.

(** X8. A completed [preprocessVideo] is a completed [captureVideo]
    followed by a completed [preprocessing] of the captured canvas. When
    [cv.imread] reads a captured canvas at the video's native size
    (positive, below 2^53), the ratios are [max / videoWidth] and
    [max / videoHeight] with [max] the larger of the two, and both are at
    least 1. *)
Theorem preprocessVideo_ratios (env : Env) source modelWidth modelHeight canvas
    tr input xRatio yRatio :
  (forall capture mat,
      env _ (cv_imread (CanvasElement capture)) = inr mat ->
      cols mat = videoWidth source /\ rows mat = videoHeight source) ->
  (0 < videoWidth source < 2 ^ 53)%Z ->
  (0 < videoHeight source < 2 ^ 53)%Z ->
  run env (preprocessVideo source modelWidth modelHeight canvas)
    = (tr, inr (input, xRatio, yRatio)) ->
  exists capture trc trp,
    run env (captureVideo source None) = (trc, inr capture) /\
    run env (preprocessing (CanvasElement capture) modelWidth modelHeight)
      = (trp, inr (input, xRatio, yRatio)) /\
    tr = trc ++ trp /\
    xRatio = (JS.of_Z (Z.max (videoHeight source) (videoWidth source))
              / JS.of_Z (videoWidth source))%float /\
    yRatio = (JS.of_Z (Z.max (videoHeight source) (videoWidth source))
              / JS.of_Z (videoHeight source))%float /\
    (1 <=? xRatio)%float = true /\
    (1 <=? yRatio)%float = true.
Proof.
  intros Hread Hw Hh H. unfold preprocessVideo in H. rewrite run_bind in H.
  destruct (run env (captureVideo source None)) as [trc [e | capture]];
    [discriminate H |].
  destruct (run env (preprocessing (CanvasElement capture) modelWidth modelHeight))
    as [trp r] eqn:Hp.
  injection H as <- ->.
  exists capture, trc, trp.
  split; [reflexivity |]. split; [exact Hp |]. split; [reflexivity |].
  apply preprocessing_returns in Hp. destruct Hp as (mat & Hmat & Hp).
  cbv zeta in Hp. destruct Hp as (-> & -> & _).
  destruct (Hread _ _ Hmat) as [-> ->].
  split; [reflexivity |]. split; [reflexivity |].
  split; apply of_Z_div_ge_one; lia.
Qed.

Lemma preprocessVideo_ratios_witness :
  exists input xRatio yRatio,
    snd (run (Fixture.env_with 8 4 Fixture.selected)
             (preprocessVideo Fixture.video (Some 640) (Some 640) Fixture.canvas))
      = inr (input, xRatio, yRatio) /\
    xRatio = 2%float /\ yRatio = 1%float.
Proof.
  eexists _, _, _. split; [vm_compute; reflexivity |].
  edestruct (preprocessVideo_ratios (Fixture.env_with 8 4 Fixture.selected)
               Fixture.video (Some 640) (Some 640) Fixture.canvas)
    as (capture & trc & trp & _ & _ & _ & Hx & Hy & _).
  - intros capture mat H. injection H as <-. split; reflexivity.
  - cbn; lia.
  - cbn; lia.
  - vm_compute. reflexivity.
  - split; [rewrite Hx | rewrite Hy]; reflexivity.
Defined.

(** ** The stages of [detectImage] *)

Lemma nth_error_skipn_2 {A} (l : list A) i :
  nth_error (skipn 2 l) i = nth_error l (2 + i).
Proof. destruct l as [| a [| b l]]; try reflexivity; destruct i; reflexivity. Qed.

(** X9. A completed [detectImage] has made these calls, in this order: the
    calls of a completed [preprocessing] for the size
    [(inputShape[2], inputShape[3])]; the construction of the input tensor
    from the blob's data with shape [inputShape]; the construction of the
    config tensor from [Float32Array [topk, iouThreshold, scoreThreshold]];
    the forward pass on the input tensor; the NMS on its output and the
    config; [renderBoxes] on the output canvas with the decoded boxes; the
    calls of the callback, which has run exactly once and completed; and
    last the release of the blob. Nothing is rendered before the NMS call. *)
Theorem detectImage_completed_trace env image canvas topk iouThreshold
    scoreThreshold inputShape callback tr :
  run env (detectImage image canvas topk iouThreshold scoreThreshold inputShape
                       callback) = (tr, inr tt) ->
  exists trp input xRatio yRatio tensor config output0 selected trc,
    run env (preprocessing image (nth_error inputShape 2) (nth_error inputShape 3))
      = (trp, inr (input, xRatio, yRatio)) /\
    run env callback = (trc, inr tt) /\
    tr = trp ++
         [ Called (ort_Tensor "float32" (data32F input) (Some inputShape)) (inr tensor);
           Called (ort_Tensor "float32"
                     (Float32Array [topk; iouThreshold; scoreThreshold]) None)
                  (inr config);
           Called (net_run tensor) (inr output0);
           Called (nms_run output0 config) (inr (Some selected));
           Called (renderBoxes canvas (decode xRatio yRatio selected)) (inr tt) ] ++
         trc ++ [ Called (Mat_delete b_input) (inr tt) ] /\
    count is_render trp = 0.
Proof.
  intros H. apply detectImage_returns in H.
  destruct H as (trp & input & xRatio & yRatio & tensor & config & output0 &
                 selected & trc & Hp & _ & Hc & ->).
  rewrite !nth_error_skipn_2 in Hp. cbn [plus] in Hp.
  exists trp, input, xRatio, yRatio, tensor, config, output0, selected, trc.
  split; [exact Hp |]. split; [exact Hc |]. split; [reflexivity |].
  apply preprocessing_returns in Hp. destruct Hp as (mat & _ & Hp).
  cbv zeta in Hp. destruct Hp as (_ & _ & ->). reflexivity.
Qed.

Lemma detectImage_completed_trace_witness :
  exists trp tensor config output0 selected,
    fst (run Fixture.env
             (detectImage Fixture.image Fixture.canvas 100 0.5 0.25
                          Fixture.inputShape (call requestAnimationFrame_detect)))
    = trp ++
      [ Called (ort_Tensor "float32" [0; 0; 0]%float (Some Fixture.inputShape))
               (inr tensor);
        Called (ort_Tensor "float32"
                  (Float32Array [100; 0.5; 0.25]%float) None) (inr config);
        Called (net_run tensor) (inr output0);
        Called (nms_run output0 config) (inr (Some selected));
        Called (renderBoxes Fixture.canvas (decode 2 1 selected)) (inr tt) ] ++
      [ Called requestAnimationFrame_detect (inr tt) ] ++
      [ Called (Mat_delete b_input) (inr tt) ].
Proof.
  destruct (detectImage_completed_trace Fixture.env Fixture.image Fixture.canvas
              100 0.5 0.25 Fixture.inputShape (call requestAnimationFrame_detect)
              _ eq_refl)
    as (trp & input & xRatio & yRatio & tensor & config & output0 & selected &
        trc & Hp & Hc & Htr & _).
  vm_compute in Hp. injection Hp as _ <- <- <-.
  vm_compute in Hc. injection Hc as <-.
  exists trp, tensor, config, output0, selected. exact Htr.
Defined.

Lemma count_zero_cons f e tr :
  count f (e :: tr) = 0 -> f e = false /\ count f tr = 0.
Proof. rewrite count_cons. destruct (f e); [discriminate | auto]. Qed.

Lemma is_nms_backend e : is_nms e = true -> is_backend e = true.
Proof. destruct e as [X c r]. destruct c; try discriminate; reflexivity. Qed.

Lemma net_output_backend e : is_backend e = false -> net_output e = None.
Proof. destruct e as [X c r]. destruct c; try discriminate; reflexivity. Qed.

Lemma is_fulfilled_backend e : is_backend e = false -> is_fulfilled e = false.
Proof. destruct e as [X c [e | x]]; [reflexivity |]. exact (fun H => H). Qed.

Lemma count_fulfilled_backend tr :
  count is_backend tr = 0 -> count is_fulfilled tr = 0.
Proof.
  induction tr as [| e tr IH]; [reflexivity |]. intros H.
  apply count_zero_cons in H. destruct H as [He H].
  rewrite count_cons, (is_fulfilled_backend _ He), (IH H). reflexivity.
Qed.

Lemma count_nms_backend tr :
  count is_backend tr = 0 -> count is_nms tr = 0.
Proof.
  induction tr as [| e tr IH]; [reflexivity |]. intros H.
  apply count_zero_cons in H. destruct H as [He H].
  rewrite count_cons, (IH H).
  destruct (is_nms e) eqn:E; [apply is_nms_backend in E; congruence | reflexivity].
Qed.

(** A trace without backend calls keeps the order, whatever follows it. *)
Lemma nms_follows_net_free tr p tr' :
  count is_backend tr = 0 ->
  nms_follows_net None tr' ->
  nms_follows_net p (tr ++ tr').
Proof.
  revert p. induction tr as [| e tr IH]; intros p H H'.
  - destruct tr' as [| e' tr']; [exact I |]. cbn in *.
    destruct H' as [H1 H2]. split; [| exact H2].
    intros Hn. specialize (H1 Hn). destruct e' as [X c r].
    destruct c; try discriminate Hn. discriminate H1.
  - apply count_zero_cons in H. destruct H as [He H]. cbn.
    split.
    + intros Hn. apply is_nms_backend in Hn. congruence.
    + rewrite (net_output_backend _ He). apply IH; assumption.
Qed.

Ltac order_paths :=
  cbn [app];
  repeat (progress rewrite ?count_cons, ?count_app, ?count_nil);
  cbn [nms_follows_net is_nms nms_detection net_output is_backend is_await
       is_fulfilled is_render];
  repeat split; intros; try discriminate; try reflexivity; try lia.

(** X10. On every exit path of [detectImage], with a callback that calls
    neither the backend nor [renderBoxes]: at most two backend calls are
    made and at most one of them is the NMS; the NMS call directly follows
    a fulfilled forward pass and is given its output; the boxes are
    rendered at most once, only when both backend calls have fulfilled,
    and always when the invocation completes. *)
Theorem detectImage_stage_order env image canvas topk iouThreshold scoreThreshold
    inputShape callback tr r :
  count is_backend (fst (run env callback)) = 0 ->
  count is_render (fst (run env callback)) = 0 ->
  run env (detectImage image canvas topk iouThreshold scoreThreshold inputShape
                       callback) = (tr, r) ->
  nms_follows_net None tr /\
  count is_backend tr <= 2 /\
  count is_nms tr <= 1 /\
  count is_render tr <= 1 /\
  (count is_render tr = 1 -> count is_fulfilled tr = 2) /\
  (r = inr tt -> count is_render tr = 1).
Proof.
  intros Hb Hr H.
  unfold detectImage, preprocessing, JS.Math_max_int, call in H.
  cbn [bind run] in H.
  run_paths H env; try solve [injection H as <- <-; order_paths].
  all: match type of H with
       | context [match ?o with Some _ => _ | None => _ end] =>
           destruct o as [selected |]
       end; cbn [run] in H;
    [| cbv iota beta in H; injection H as <- <-; order_paths].
  run_paths H env; try solve [injection H as <- <-; order_paths].
  rewrite run_bind in H.
  pose proof (count_nms_backend _ Hb) as Hn.
  pose proof (count_fulfilled_backend _ Hb) as Hf.
  destruct (run env callback) as [trc [e | []]]; cbn [fst] in Hb, Hr, Hn, Hf;
    cbv iota beta in H.
  - injection H as <- <-. order_paths; try (rewrite ?Hb, ?Hr, ?Hn, ?Hf; lia).
    rewrite <- (app_nil_r trc). apply nms_follows_net_free; [exact Hb | exact I].
  - cbn [run] in H.
    run_paths H env; injection H as <- <-;
      order_paths; try (rewrite ?Hb, ?Hr, ?Hn, ?Hf; lia);
      (apply nms_follows_net_free; [exact Hb | cbn; auto; repeat split; discriminate]).
Qed.

Lemma detectImage_stage_order_witness :
  nms_follows_net None
    (fst (run Fixture.env
              (detectImage Fixture.image Fixture.canvas 100 0.5 0.25
                           Fixture.inputShape (call requestAnimationFrame_detect)))) /\
  count is_render
    (fst (run Fixture.env
              (detectImage Fixture.image Fixture.canvas 100 0.5 0.25
                           Fixture.inputShape (call requestAnimationFrame_detect)))) = 1.
Proof.
  destruct (detectImage_stage_order Fixture.env Fixture.image Fixture.canvas
              100 0.5 0.25 Fixture.inputShape (call requestAnimationFrame_detect)
              _ _ eq_refl eq_refl eq_refl)
    as (H1 & _ & _ & _ & _ & H6).
  split; [exact H1 | apply H6; reflexivity].
Defined.

Ltac missing_paths :=
  cbn [app rendered];
  repeat (progress rewrite ?count_cons, ?count_app, ?count_nil);
  cbn [is_nms is_delete buffer_eqb];
  repeat split; intros; try discriminate; try reflexivity; try lia.

(** X11. When the NMS output has no [selected] entry, [detectImage] never
    completes: nothing is rendered, the blob is never released, and once
    the NMS call has been made the invocation ends with the TypeError of
    reading [dims] of [undefined]. *)
Theorem missing_selected_rejects (env : Env) image canvas topk iouThreshold
    scoreThreshold inputShape callback tr r :
  (forall detection config, env _ (nms_run detection config) = inr None) ->
  run env (detectImage image canvas topk iouThreshold scoreThreshold inputShape
                       callback) = (tr, r) ->
  r <> inr tt /\
  rendered tr = [] /\
  count (is_delete b_input) tr = 0 /\
  (count is_nms tr = 1 -> r = inl (TypeError "selected is undefined")).
Proof.
  intros Hnms H.
  unfold detectImage, preprocessing, JS.Math_max_int, call in H.
  cbn [bind run] in H.
  run_paths H env; try solve [injection H as <- <-; missing_paths].
  all: match goal with
       | E : ?f _ (nms_run _ _) = _ |- _ =>
           rewrite Hnms in E; first [discriminate E | injection E as E; subst]
       end.
  all: cbn [run] in H; injection H as <- <-; missing_paths.
Qed.

Lemma missing_selected_rejects_witness :
  snd (run Fixture.env_without_selected
           (detectImage Fixture.image Fixture.canvas 100 0.5 0.25
                        Fixture.inputShape no_callback))
    = inl (TypeError "selected is undefined") /\
  rendered (fst (run Fixture.env_without_selected
                     (detectImage Fixture.image Fixture.canvas 100 0.5 0.25
                                  Fixture.inputShape no_callback))) = [].
Proof.
  destruct (missing_selected_rejects Fixture.env_without_selected Fixture.image
              Fixture.canvas 100 0.5 0.25 Fixture.inputShape no_callback _ _
              (fun _ _ => eq_refl) eq_refl)
    as (_ & H2 & _ & H4).
  split; [apply H4; reflexivity | exact H2].
Defined.

Lemma is_delete_uses b e : is_delete b e = true -> uses b e = true.
Proof.
  destruct e as [X c [e | x]]; destruct c; try discriminate; exact (fun H => H).
Qed.

Lemma no_use_after_delete_free b tr tr' :
  forallb (fun e => negb (uses b e)) tr = true ->
  no_use_after_delete b (tr ++ tr') = no_use_after_delete b tr'.
Proof.
  induction tr as [| e tr IH]; [reflexivity |]. cbn [forallb app no_use_after_delete].
  intros H. apply andb_true_iff in H. destruct H as [He H].
  destruct (is_delete b e) eqn:Hd.
  - apply is_delete_uses in Hd. rewrite Hd in He. discriminate He.
  - rewrite (IH H). reflexivity.
Qed.

Ltac release_paths Hfree b :=
  cbn [app no_use_after_delete forallb];
  rewrite ?forallb_app, ?(no_use_after_delete_free b _ _ (Hfree b)), ?(Hfree b);
  destruct b; reflexivity.

(** X12. On every exit path of [detectImage], with a callback that touches
    no buffer, no call works on a native buffer after that buffer has been
    released: the three matrices are released after the last call that
    takes them, and the blob after the forward pass that reads it (and
    after everything else). In particular no buffer is released twice. *)
Theorem no_use_after_release env image canvas topk iouThreshold scoreThreshold
    inputShape callback tr r :
  (forall b, forallb (fun e => negb (uses b e)) (fst (run env callback)) = true) ->
  run env (detectImage image canvas topk iouThreshold scoreThreshold inputShape
                       callback) = (tr, r) ->
  forall b, no_use_after_delete b tr = true.
Proof.
  intros Hfree H b.
  unfold detectImage, preprocessing, JS.Math_max_int, call in H.
  cbn [bind run] in H.
  run_paths H env; try solve [injection H as <- <-; destruct b; reflexivity].
  all: match type of H with
       | context [match ?o with Some _ => _ | None => _ end] =>
           destruct o as [selected |]
       end; cbn [run] in H;
    [| cbv iota beta in H; injection H as <- <-; destruct b; reflexivity].
  run_paths H env; try solve [injection H as <- <-; destruct b; reflexivity].
  rewrite run_bind in H.
  destruct (run env callback) as [trc [e | []]]; cbn [fst] in Hfree;
    cbv iota beta in H.
  - injection H as <- <-. rewrite <- (app_nil_r trc). release_paths Hfree b.
  - cbn [run] in H.
    run_paths H env; injection H as <- <-; release_paths Hfree b.
Qed.

Lemma no_use_after_release_witness :
  no_use_after_delete b_input
    (fst (run Fixture.env
              (detectImage Fixture.image Fixture.canvas 100 0.5 0.25
                           Fixture.inputShape (call requestAnimationFrame_detect))))
  = true.
Proof.
  apply (no_use_after_release Fixture.env Fixture.image Fixture.canvas
           100 0.5 0.25 Fixture.inputShape (call requestAnimationFrame_detect)
           _ (snd (run Fixture.env
                       (detectImage Fixture.image Fixture.canvas 100 0.5 0.25
                                    Fixture.inputShape
                                    (call requestAnimationFrame_detect))))).
  - intros b. destruct b; reflexivity.
  - reflexivity.
Defined.

(** X13. The config tensor holds binary32 values. An integer [topk] from 0
    up to 2^24 - 1 is stored unchanged; the two thresholds are stored
    rounded to binary32. *)
Theorem config_keeps_integer_topk n iouThreshold scoreThreshold :
  (0 <= n < 2 ^ 24)%Z ->
  Float32Array [JS.of_Z n; iouThreshold; scoreThreshold]
  = [JS.of_Z n; fround iouThreshold; fround scoreThreshold].
Proof.
  intros Hn. unfold Float32Array. cbn [map]. rewrite (fround_of_Z n Hn). reflexivity.
Qed.

Lemma config_keeps_integer_topk_witness :
  Float32Array [100; 0.5; 0.25]%float = [100; fround 0.5; fround 0.25]%float.
Proof.
  exact (config_keeps_integer_topk 100 0.5 0.25 ltac:(lia)).
Defined.

(** ** More on the video pump *)

Ltac advance_paths H env :=
  repeat (first
    [ match type of H with
      | context [match env ?X ?c with _ => _ end] =>
          let E := fresh "Hcall" in destruct (env X c) as [?e | ?x] eqn:E
      end
    | match type of H with
      | context [match ?o with Some _ => _ | None => _ end] => destruct o
      end ];
    cbv iota beta in H; cbn [bind advance is_await] in H).

(** What one call of [detect] does before it first awaits. *)
Lemma detect_first_segment env vidSource canvasRef topk iouThreshold scoreThreshold
    inputShape tr st :
  advance env (detect vidSource canvasRef topk iouThreshold scoreThreshold
                      inputShape) = (tr, st) ->
  count is_schedule tr = 0 /\
  count is_render tr = 0 /\
  count is_backend tr = 0.
Proof.
  intros H. unfold detect in H.
  destruct ((videoWidth vidSource =? 0)%Z && is_null (srcObject vidSource)).
  - unfold call in H. cbn [bind advance is_await] in H.
    advance_paths H env; injection H as <- <-;
      repeat (progress rewrite ?count_cons, ?count_app, ?count_nil);
      cbn; repeat split; lia.
  - unfold detectFrame, captureVideo, detectImage, preprocessing, call in H.
    cbn [bind advance is_await] in H.
    advance_paths H env; injection H as <- <-;
      repeat (progress rewrite ?count_cons, ?count_app, ?count_nil);
      cbn; repeat split; lia.
Qed.

(** X14. [detectVideo] does not wait for the backend. When it returns, no
    backend call has settled, nothing has been rendered and no tick is
    scheduled; at most one invocation is waiting on the backend, and if
    none is, at most one rejection went unhandled. *)
Theorem detectVideo_returns_early canvasRef topk iouThreshold scoreThreshold
    inputShape env vidSource :
  scheduled (detectVideo canvasRef topk iouThreshold scoreThreshold inputShape
                         env vidSource) = 0 /\
  count is_render
        (history (detectVideo canvasRef topk iouThreshold scoreThreshold inputShape
                              env vidSource)) = 0 /\
  count is_backend
        (history (detectVideo canvasRef topk iouThreshold scoreThreshold inputShape
                              env vidSource)) = 0 /\
  length (in_flight (detectVideo canvasRef topk iouThreshold scoreThreshold
                                 inputShape env vidSource)) +
  length (unhandled (detectVideo canvasRef topk iouThreshold scoreThreshold
                                 inputShape env vidSource)) <= 1.
Proof.
  unfold detectVideo, tick.
  destruct (advance env (detect vidSource canvasRef topk iouThreshold
                                scoreThreshold inputShape)) as [tr st] eqn:H.
  apply detect_first_segment in H. destruct H as (Hs & Hr & Hb).
  unfold absorb, idle. cbn [scheduled history in_flight unhandled app plus].
  rewrite Hs, Hr, Hb.
  repeat split. destruct st as [[e | []] | X c k]; cbn; lia.
Qed.

Lemma not_closed vidSource :
  ~ (videoWidth vidSource = 0%Z /\ srcObject vidSource = None) ->
  (videoWidth vidSource =? 0)%Z && is_null (srcObject vidSource) = false.
Proof.
  intros Hnot. destruct (Z.eqb_spec (videoWidth vidSource) 0) as [Hw | Hw];
    [| reflexivity].
  destruct (srcObject vidSource) eqn:Hs; [reflexivity |].
  exfalso. apply Hnot. split; [exact Hw | reflexivity].
Qed.

(** X15. A tick on a source that is not closed first captures the frame.
    When the canvas created for the capture gives no 2D context,
    [captureVideo] throws a TypeError before drawing: the tick makes no
    other call, the rejection is handled by nothing, and no tick is
    scheduled. A pump whose first tick ends so has stopped. *)
Theorem capture_needs_context canvasRef topk iouThreshold scoreThreshold
    inputShape (env : Env) vidSource w capture :
  ~ (videoWidth vidSource = 0%Z /\ srcObject vidSource = None) ->
  env _ (document_createCanvas (JS.of_Z (videoWidth vidSource))
                               (JS.of_Z (videoHeight vidSource))) = inr capture ->
  env _ (canvas_getContext capture) = inr None ->
  tick canvasRef topk iouThreshold scoreThreshold inputShape env vidSource w
  = mkWorld (scheduled w) (in_flight w)
            (unhandled w ++ [TypeError "ctx is null"])
            (history w ++
             [ Called (document_createCanvas (JS.of_Z (videoWidth vidSource))
                                             (JS.of_Z (videoHeight vidSource)))
                      (inr capture);
               Called (canvas_getContext capture) (inr None) ]) /\
  stopped canvasRef topk iouThreshold scoreThreshold inputShape
          (detectVideo canvasRef topk iouThreshold scoreThreshold inputShape
                       env vidSource).
Proof.
  intros Hopen Hcreate Hctx.
  assert (Htick : forall w0,
    tick canvasRef topk iouThreshold scoreThreshold inputShape env vidSource w0
    = mkWorld (scheduled w0) (in_flight w0)
              (unhandled w0 ++ [TypeError "ctx is null"])
              (history w0 ++
               [ Called (document_createCanvas (JS.of_Z (videoWidth vidSource))
                                               (JS.of_Z (videoHeight vidSource)))
                        (inr capture);
                 Called (canvas_getContext capture) (inr None) ])).
  { intros w0. unfold tick, detect. rewrite (not_closed _ Hopen).
    unfold detectFrame, captureVideo. rewrite !mul_one_r.
    unfold call. cbn [bind advance is_await].
    rewrite Hcreate. cbv iota beta. cbn [bind advance is_await].
    rewrite Hctx. cbv iota beta. cbn [bind advance is_await].
    unfold absorb. cbn [count filter is_schedule length].
    rewrite Nat.add_0_r, app_nil_r. reflexivity. }
  split; [apply Htick |].
  unfold detectVideo. rewrite Htick. apply idle_stopped; reflexivity.
Qed.

Lemma capture_needs_context_witness :
  unhandled (detectVideo Fixture.canvas 100%float 0.5%float 0.25%float
                         Fixture.inputShape Fixture.env_without_context
                         Fixture.video)
    = [TypeError "ctx is null"] /\
  stopped Fixture.canvas 100%float 0.5%float 0.25%float Fixture.inputShape
          (detectVideo Fixture.canvas 100%float 0.5%float 0.25%float
                       Fixture.inputShape Fixture.env_without_context
                       Fixture.video).
Proof.
  destruct (capture_needs_context Fixture.canvas 100%float 0.5%float 0.25%float
              Fixture.inputShape Fixture.env_without_context Fixture.video idle
              (mkCanvas 4 8))
    as [Htick Hstop].
  - intros [H _]. discriminate H.
  - reflexivity.
  - reflexivity.
  - split; [reflexivity | exact Hstop].
Defined.

Ltac answer Hall Hctx Hnms :=
  match goal with
  | |- context [match ?env _ (canvas_getContext ?cv) with _ => _ end] =>
      let x := fresh "ctx" in let Hx := fresh "Hx" in
      destruct (Hctx cv) as [x Hx]; rewrite Hx; cbv iota beta;
      cbn [bind advance is_await]
  | |- context [match ?env _ (nms_run ?d ?c) with _ => _ end] =>
      let x := fresh "selected" in let Hx := fresh "Hx" in
      destruct (Hnms d c) as [x Hx]; rewrite Hx; cbv iota beta;
      cbn [bind advance is_await]
  | |- context [match ?env ?X ?c with _ => _ end] =>
      let x := fresh "x" in let Hx := fresh "Hx" in
      destruct (Hall X c) as [x Hx]; rewrite Hx; cbv iota beta;
      cbn [bind advance is_await]
  end.

(** One tick on an open source and the fulfilment of its two backend
    calls, in an environment where every call succeeds. *)
Lemma frame_cycle canvasRef topk iouThreshold scoreThreshold inputShape env
    vidSource w :
  fulfils env ->
  (videoWidth vidSource =? 0)%Z && is_null (srcObject vidSource) = false ->
  in_flight w = [] ->
  exists tr,
    settle_first env env
      (settle_first env env
         (tick canvasRef topk iouThreshold scoreThreshold inputShape
               env vidSource w))
    = mkWorld (scheduled w + 1) [] (unhandled w) (history w ++ tr) /\
    count is_render tr = 1 /\
    count is_schedule tr = 1 /\
    count is_fulfilled tr = 2.
Proof.
  intros (Hall & Hctx & Hnms) Hopen Hidle.
  unfold tick, detect. rewrite Hopen.
  unfold detectFrame, captureVideo, detectImage, preprocessing, call.
  cbn [bind advance is_await].
  repeat answer Hall Hctx Hnms.
  cbn [absorb]. rewrite Hidle. cbn [app].
  unfold settle_first at 2. cbn [in_flight]. unfold settle.
  cbn [scheduled in_flight unhandled history app].
  answer Hall Hctx Hnms.
  cbn [absorb scheduled in_flight unhandled history app].
  unfold settle_first. cbn [in_flight]. unfold settle.
  cbn [scheduled in_flight unhandled history app].
  repeat answer Hall Hctx Hnms.
  cbn [absorb scheduled in_flight unhandled history app].
  repeat (progress rewrite ?count_cons, ?count_app, ?count_nil).
  cbn [is_schedule]. rewrite !app_nil_r, <- !app_assoc.
  eexists. split; [f_equal; lia |].
  repeat (progress rewrite ?count_cons, ?count_app, ?count_nil).
  cbn [is_render is_schedule is_fulfilled is_await].
  repeat split.
Qed.

Lemma settle_first_reachable canvasRef topk iouThreshold scoreThreshold inputShape
    env backend w :
  reachable canvasRef topk iouThreshold scoreThreshold inputShape w ->
  reachable canvasRef topk iouThreshold scoreThreshold inputShape
            (settle_first env backend w).
Proof.
  intros Hreach. destruct (in_flight w) as [| f after] eqn:Hin.
  - unfold settle_first. rewrite Hin. exact Hreach.
  - eapply reach_step; [exact Hreach |].
    apply settle_first_step. rewrite Hin. discriminate.
Qed.

(** X16. A frame on which nothing fails re-arms the pump. When a scheduled
    tick fires on a source that is not closed, and every call of the frame
    succeeds, then once the forward pass and the NMS have fulfilled the
    frame has been rendered exactly once and exactly one new tick has been
    requested; nothing is left in flight, no rejection has been added, and
    the pump has not stopped. *)
Theorem frame_rearms_pump canvasRef topk iouThreshold scoreThreshold inputShape
    env vidSource w :
  fulfils env ->
  ~ (videoWidth vidSource = 0%Z /\ srcObject vidSource = None) ->
  reachable canvasRef topk iouThreshold scoreThreshold inputShape w ->
  0 < scheduled w ->
  exists tr,
    settle_first env env
      (settle_first env env
         (fire canvasRef topk iouThreshold scoreThreshold inputShape
               env vidSource w))
    = mkWorld 1 [] (unhandled w) (history w ++ tr) /\
    count is_render tr = 1 /\
    count is_schedule tr = 1 /\
    count is_fulfilled tr = 2 /\
    reachable canvasRef topk iouThreshold scoreThreshold inputShape
              (mkWorld 1 [] (unhandled w) (history w ++ tr)) /\
    ~ stopped canvasRef topk iouThreshold scoreThreshold inputShape
              (mkWorld 1 [] (unhandled w) (history w ++ tr)).
Proof.
  intros Henv Hopen Hreach Hpos.
  pose proof (reachable_invariant _ _ _ _ _ _ Hreach) as (Hle & _ & _).
  assert (Hidle : in_flight w = [])
    by (destruct (in_flight w); [reflexivity | cbn [length] in Hle; lia]).
  assert (Hone : scheduled w = 1) by (rewrite Hidle in Hle; cbn in Hle; lia).
  assert (Hfire :
            fire canvasRef topk iouThreshold scoreThreshold inputShape env vidSource w
            = tick canvasRef topk iouThreshold scoreThreshold inputShape env vidSource
                   (mkWorld 0 (in_flight w) (unhandled w) (history w)))
    by (unfold fire; rewrite Hone; reflexivity).
  destruct (frame_cycle canvasRef topk iouThreshold scoreThreshold inputShape env
              vidSource (mkWorld 0 (in_flight w) (unhandled w) (history w))
              Henv (not_closed _ Hopen) Hidle)
    as (tr & Hw & Hr & Hs & Hf).
  cbn [scheduled unhandled history plus] in Hw. rewrite <- Hfire in Hw.
  exists tr. split; [exact Hw |]. split; [exact Hr |]. split; [exact Hs |].
  split; [exact Hf |]. split.
  - rewrite <- Hw.
    apply settle_first_reachable, settle_first_reachable.
    eapply reach_step; [exact Hreach |]. apply step_fire. exact Hpos.
  - intros Hstop. eapply Hstop. apply (step_fire _ _ _ _ _ env vidSource). cbn. lia.
Qed.

Lemma fixture_fulfils : fulfils Fixture.env.
Proof.
  split; [| split].
  - intros X c. destruct c; try (eexists; reflexivity).
    match goal with |- context [ort_Tensor _ _ ?d] => destruct d end;
      eexists; reflexivity.
  - intros canvas. eexists. reflexivity.
  - intros detection config. eexists. reflexivity.
Qed.

Lemma frame_rearms_pump_witness :
  exists tr,
    settle_first Fixture.env Fixture.env
      (settle_first Fixture.env Fixture.env
         (fire Fixture.canvas 100%float 0.5%float 0.25%float Fixture.inputShape
               Fixture.env Fixture.video Fixture.frame_done))
    = mkWorld 1 [] [] (history Fixture.frame_done ++ tr) /\
    count is_render tr = 1.
Proof.
  destruct (frame_rearms_pump Fixture.canvas 100%float 0.5%float 0.25%float
              Fixture.inputShape Fixture.env Fixture.video Fixture.frame_done
              fixture_fulfils)
    as (tr & Hw & Hr & _).
  - intros [H _]. discriminate H.
  - apply frame_done_reachable.
  - vm_compute. lia.
  - exists tr. split; [exact Hw | exact Hr].
Defined.

Lemma is_schedule_inr X (c : Call X) x : is_schedule (Called c (inr x)) = is_raf c.
Proof. destruct c; reflexivity. Qed.

Lemma is_clear_inr X (c : Call X) x : is_clear (Called c (inr x)) = is_clearRect c.
Proof. destruct c; reflexivity. Qed.

Ltac driven_step :=
  cbn;
  match goal with
  | |- driven _ (match ?x with _ => _ end) => destruct x
  | |- driven _ (bind (match ?x with _ => _ end) _) => destruct x
  | |- driven _ _ =>
      first [ apply driven_ret
            | apply driven_throw
            | apply driven_await; [reflexivity | intros]
            | apply driven_call; [reflexivity | intros] ]
  end.

Lemma detect_driven vidSource canvasRef topk iouThreshold scoreThreshold inputShape :
  driven false (detect vidSource canvasRef topk iouThreshold scoreThreshold
                       inputShape).
Proof.
  unfold detect.
  destruct ((videoWidth vidSource =? 0)%Z && is_null (srcObject vidSource)).
  - repeat driven_step.
  - unfold detectFrame, captureVideo, detectImage, preprocessing, call.
    repeat driven_step.
Qed.

(** A driven program that runs to its end without an exception has
    requested a frame or cleared a canvas on the way. *)
Lemma advance_driven {A} env (p : Prog A) b :
  driven b p ->
  match snd (advance env p) with
  | Finished (inr _) =>
      b = true \/ 1 <= count is_schedule (fst (advance env p)) \/
      1 <= count is_clear (fst (advance env p))
  | Finished (inl _) => True
  | Suspended c k => forall x, driven false (k x)
  end.
Proof.
  induction 1 as [a | b e | X c k Hawait Hk IH | b X c k Hawait Hk IH];
    cbn [advance].
  - cbn. auto.
  - cbn. auto.
  - rewrite Hawait. cbn. exact Hk.
  - rewrite Hawait. destruct (env X c) as [e | x]; [cbn; exact I |].
    specialize (IH x).
    destruct (advance env (k x)) as [tr [[e | a] | Y c' k']]; cbn [fst snd] in *;
      [exact I | | exact IH].
    rewrite !count_cons, is_schedule_inr, is_clear_inr.
    destruct IH as [Hb | [Hs | Hc]]; [| right; left; lia | right; right; lia].
    destruct b; [left; reflexivity |].
    destruct (is_raf c); [right; left; lia |].
    destruct (is_clearRect c); [right; right; lia | discriminate Hb].
Qed.

Lemma absorb_alive env (p : Prog unit) w :
  driven false p ->
  Forall continues (in_flight w) ->
  pump_alive (absorb w (advance env p)).
Proof.
  intros Hp Hf. pose proof (advance_driven env p false Hp) as H.
  unfold pump_alive, absorb.
  destruct (advance env p) as [tr [[e | []] | X c k]]; cbn [fst snd] in H;
    cbn [scheduled in_flight unhandled history].
  - split; [rewrite app_nil_r; exact Hf |].
    right; left. destruct (unhandled w); discriminate.
  - split; [rewrite app_nil_r; exact Hf |].
    destruct H as [H | [H | H]]; [discriminate H | left; lia |].
    right; right. rewrite count_app. lia.
  - split.
    + apply Forall_app. split; [exact Hf |]. constructor; [exact H | constructor].
    + left. rewrite length_app. cbn. lia.
Qed.

Lemma reachable_alive canvasRef topk iouThreshold scoreThreshold inputShape w :
  reachable canvasRef topk iouThreshold scoreThreshold inputShape w ->
  pump_alive w.
Proof.
  induction 1 as [env vidSource | w w' _ IH Hstep].
  - unfold detectVideo, tick. apply absorb_alive; [apply detect_driven | constructor].
  - destruct IH as [Hf _].
    destruct Hstep as [env vidSource w Hpos | env w before after X c k r Hin].
    + unfold fire, tick. apply absorb_alive; [apply detect_driven | exact Hf].
    + rewrite Hin in Hf. apply Forall_app in Hf. destruct Hf as [Hb Ha].
      inversion Ha as [| f l Hk Ha']; subst.
      assert (Hrest : Forall continues (before ++ after))
        by (apply Forall_app; split; assumption).
      unfold settle. destruct r as [e | x].
      * unfold pump_alive, absorb. cbn.
        split; [rewrite app_nil_r; exact Hrest |].
        right; left. destruct (unhandled w); discriminate.
      * apply absorb_alive; [apply Hk | exact Hrest].
Qed.

Lemma stopped_idle canvasRef topk iouThreshold scoreThreshold inputShape w :
  stopped canvasRef topk iouThreshold scoreThreshold inputShape w ->
  scheduled w = 0 /\ in_flight w = [].
Proof.
  intros Hstop. split.
  - destruct (scheduled w) as [| n] eqn:Hs; [reflexivity |].
    exfalso. eapply Hstop. apply (step_fire _ _ _ _ _ Fixture.env Fixture.video).
    lia.
  - destruct (in_flight w) as [| [X c k] after] eqn:Hin; [reflexivity |].
    exfalso. eapply Hstop.
    apply (step_settle _ _ _ _ _ Fixture.env w [] after X c k (inl (LibraryError 0))).
    exact Hin.
Qed.

(** X17. A pump stops for one of two reasons only. In every world the pump
    can reach, if no tick is scheduled and no invocation is in flight,
    then a rejection went unhandled or a tick found the source closed and
    cleared the canvas. *)
Theorem pump_stops_for_a_reason canvasRef topk iouThreshold scoreThreshold
    inputShape w :
  reachable canvasRef topk iouThreshold scoreThreshold inputShape w ->
  stopped canvasRef topk iouThreshold scoreThreshold inputShape w ->
  unhandled w <> [] \/ 1 <= count is_clear (history w).
Proof.
  intros Hreach Hstop.
  apply reachable_alive in Hreach. destruct Hreach as [_ H].
  apply stopped_idle in Hstop. destruct Hstop as [Hs Hf].
  rewrite Hs, Hf in H. cbn in H.
  destruct H as [H | H]; [lia | exact H].
Qed.

Lemma ended_reachable :
  reachable Fixture.canvas 100%float 0.5%float 0.25%float Fixture.inputShape
            Fixture.ended.
Proof.
  eapply reach_step; [apply frame_done_reachable |].
  apply step_fire. vm_compute. lia.
Qed.

Lemma pump_stops_for_a_reason_witness :
  unhandled Fixture.ended <> [] \/ 1 <= count is_clear (history Fixture.ended).
Proof.
  apply (pump_stops_for_a_reason Fixture.canvas 100%float 0.5%float 0.25%float
           Fixture.inputShape Fixture.ended ended_reachable).
  apply idle_stopped; reflexivity.
Defined.

Lemma raf_follows_render_count b tr :
  raf_follows_render b tr ->
  count is_schedule tr <= count is_render tr + (if b then 1 else 0).
Proof.
  revert b. induction tr as [| e tr IH]; intros b H; [cbn; lia |].
  cbn [raf_follows_render] in H. destruct H as [He H].
  apply IH in H. rewrite !count_cons.
  destruct (is_schedule e) eqn:Hs.
  - assert (Hraf : is_raf_entry e = true).
    { destruct e as [X c [e | x]]; destruct c; try discriminate Hs; reflexivity. }
    assert (Hren : is_render e = false).
    { destruct e as [X c [e | x]]; destruct c; try discriminate Hs; reflexivity. }
    rewrite (He Hraf). rewrite Hren in *. lia.
  - destruct (is_render e); destruct b; lia.
Qed.

Lemma absorb_scheduled w seg :
  scheduled (absorb w seg) = scheduled w + count is_schedule (fst seg) /\
  history (absorb w seg) = history w ++ fst seg.
Proof. destruct seg as [tr st]. split; reflexivity. Qed.

Lemma scheduled_in_history canvasRef topk iouThreshold scoreThreshold inputShape w :
  reachable canvasRef topk iouThreshold scoreThreshold inputShape w ->
  scheduled w <= count is_schedule (history w).
Proof.
  induction 1 as [env vidSource | w w' _ IH Hstep].
  - unfold detectVideo, tick.
    destruct (absorb_scheduled idle
                (advance env (detect vidSource canvasRef topk iouThreshold
                                     scoreThreshold inputShape))) as [-> ->].
    cbn [idle scheduled history app]. lia.
  - destruct Hstep as [env vidSource w Hpos | env w before after X c k r Hin].
    + unfold fire, tick.
      match goal with |- context [absorb ?w0 ?seg] =>
        destruct (absorb_scheduled w0 seg) as [-> ->] end.
      cbn [scheduled history]. rewrite count_app. lia.
    + unfold settle.
      match goal with |- context [absorb ?w0 ?seg] =>
        destruct (absorb_scheduled w0 seg) as [-> ->] end.
      cbn [scheduled history]. rewrite !count_app, count_cons, count_nil.
      lia.
Qed.

(** X18. In every world the pump can reach, the ticks that are scheduled
    are at most the completed [requestAnimationFrame(detect)] calls, and
    these are at most the completed [renderBoxes] calls: the pump requests
    no more frames than it has rendered. *)
Theorem requests_bounded_by_renders canvasRef topk iouThreshold scoreThreshold
    inputShape w :
  reachable canvasRef topk iouThreshold scoreThreshold inputShape w ->
  scheduled w <= count is_schedule (history w) /\
  count is_schedule (history w) <= count is_render (history w).
Proof.
  intros Hreach. split.
  - eapply scheduled_in_history. exact Hreach.
  - apply reachable_invariant in Hreach. destruct Hreach as (_ & _ & Hh).
    apply raf_follows_render_count in Hh. lia.
Qed.

Lemma requests_bounded_by_renders_witness :
  scheduled Fixture.frame_done <= count is_schedule (history Fixture.frame_done) /\
  count is_schedule (history Fixture.frame_done)
    <= count is_render (history Fixture.frame_done).
Proof.
  exact (requests_bounded_by_renders Fixture.canvas 100%float 0.5%float 0.25%float
           Fixture.inputShape Fixture.frame_done frame_done_reachable).
Defined.

(** ** The probability of a box *)

Lemma SFleb_eqb_r lo x y :
  SFeqb x y = true -> SFleb lo x = true -> SFleb lo y = true.
Proof. sf_cases lo; sf_cases x; sf_cases y; sf_order. Qed.

Lemma SFleb_eqb_l hi x y :
  SFeqb x y = true -> SFleb x hi = true -> SFleb y hi = true.
Proof. sf_cases hi; sf_cases x; sf_cases y; sf_order. Qed.

(** X19. For a row with at least one class score, bounds on the class
    scores are bounds on the probability of the decoded box: if every
    class score lies between [lo] and [hi] (so that none is NaN), so does
    the probability; and the label is then the index of a class. With
    scores in [[0, 1]] the probability is in [[0, 1]]. *)
Theorem probability_within_scores xRatio yRatio data lo hi :
  JS.slice_from data 4 <> [] ->
  (forall s, In s (JS.slice_from data 4) ->
             (lo <=? s)%float = true /\ (s <=? hi)%float = true) ->
  (lo <=? probability (decode_row xRatio yRatio data))%float = true /\
  (probability (decode_row xRatio yRatio data) <=? hi)%float = true /\
  (0 <= label (decode_row xRatio yRatio data)
     < Z.of_nat (length (JS.slice_from data 4)))%Z.
Proof.
  intros Hne Hb. cbn [decode_row probability label].
  set (scores := JS.slice_from data 4) in *.
  assert (Hfree : no_nan scores).
  { intros s Hs. destruct (Hb s Hs) as [H _].
    rewrite leb_spec in H. apply not_nan_spec.
    intros E. rewrite E in H. destruct (Prim2SF lo) as [[|] | [|] | | [|] m e];
      discriminate H. }
  destruct (Math_max_spec scores Hne Hfree) as [_ Hat].
  pose proof Hat as (x & Hin & Hx).
  destruct (Hb x Hin) as [Hlo Hhi].
  rewrite eqb_spec in Hx. rewrite leb_spec in Hlo, Hhi.
  split; [rewrite leb_spec; eapply SFleb_eqb_r; eassumption |].
  split; [rewrite leb_spec; eapply SFleb_eqb_l; eassumption |].
  destruct (indexOf_from_first _ _ Hat 0%Z) as (i & Hi & Hlt & _).
  unfold JS.indexOf. lia.
Qed.

Lemma probability_within_scores_witness :
  (0 <=? probability (decode_row 2 1 [100; 50; 40; 20; 0.25; 0.75]%float))%float
    = true /\
  (probability (decode_row 2 1 [100; 50; 40; 20; 0.25; 0.75]%float) <=? 1)%float
    = true.
Proof.
  destruct (probability_within_scores 2 1 [100; 50; 40; 20; 0.25; 0.75]%float 0 1)
    as (H1 & H2 & _).
  - discriminate.
  - intros s Hs. simpl in Hs. destruct Hs as [<- | [<- | []]]; split; reflexivity.
  - split; assumption.
Defined.

(** ** Frame after frame *)

(** X20. With a source that is never closed and calls that never fail, the
    pump keeps pace with the frames: after its first [n + 1] frames it has
    rendered [n + 1] times and requested [n + 1] frames, one tick is
    scheduled, nothing is in flight and no rejection went unhandled. *)
Theorem pump_keeps_pace canvasRef topk iouThreshold scoreThreshold inputShape env
    vidSource :
  fulfils env ->
  ~ (videoWidth vidSource = 0%Z /\ srcObject vidSource = None) ->
  forall n,
    reachable canvasRef topk iouThreshold scoreThreshold inputShape
              (frames canvasRef topk iouThreshold scoreThreshold inputShape
                      env vidSource n) /\
    scheduled (frames canvasRef topk iouThreshold scoreThreshold inputShape
                      env vidSource n) = 1 /\
    in_flight (frames canvasRef topk iouThreshold scoreThreshold inputShape
                      env vidSource n) = [] /\
    unhandled (frames canvasRef topk iouThreshold scoreThreshold inputShape
                      env vidSource n) = [] /\
    count is_render
          (history (frames canvasRef topk iouThreshold scoreThreshold inputShape
                           env vidSource n)) = S n /\
    count is_schedule
          (history (frames canvasRef topk iouThreshold scoreThreshold inputShape
                           env vidSource n)) = S n.
Proof.
  intros Henv Hopen. apply not_closed in Hopen.
  induction n as [| n IH]; cbn [frames]; unfold finish_frame.
  - destruct (frame_cycle canvasRef topk iouThreshold scoreThreshold inputShape env
                vidSource idle Henv Hopen eq_refl) as (tr & Hw & Hr & Hs & _).
    split.
    + apply settle_first_reachable, settle_first_reachable. apply reach_start.
    + unfold detectVideo. rewrite Hw.
      cbn [scheduled in_flight unhandled history idle app plus].
      repeat split; assumption.
  - destruct IH as (Hreach & Hone & Hidle & Hun & Hren & Hsch).
    set (w := frames canvasRef topk iouThreshold scoreThreshold inputShape env
                     vidSource n) in *.
    destruct (frame_cycle canvasRef topk iouThreshold scoreThreshold inputShape env
                vidSource (mkWorld 0 (in_flight w) (unhandled w) (history w))
                Henv Hopen Hidle) as (tr & Hw & Hr & Hs & _).
    cbn [scheduled unhandled history plus] in Hw.
    assert (Hfire :
              fire canvasRef topk iouThreshold scoreThreshold inputShape env
                   vidSource w
              = tick canvasRef topk iouThreshold scoreThreshold inputShape env
                     vidSource (mkWorld 0 (in_flight w) (unhandled w) (history w)))
      by (unfold fire; rewrite Hone; reflexivity).
    rewrite <- Hfire in Hw.
    split.
    + apply settle_first_reachable, settle_first_reachable.
      eapply reach_step; [exact Hreach |]. apply step_fire. lia.
    + rewrite Hw. cbn [scheduled in_flight unhandled history].
      rewrite !count_app, Hren, Hsch, Hr, Hs, Hun.
      repeat split; lia.
Qed.

Lemma pump_keeps_pace_witness :
  count is_render
        (history (frames Fixture.canvas 100%float 0.5%float 0.25%float
                         Fixture.inputShape Fixture.env Fixture.video 2)) = 3 /\
  scheduled (frames Fixture.canvas 100%float 0.5%float 0.25%float
                    Fixture.inputShape Fixture.env Fixture.video 2) = 1.
Proof.
  destruct (pump_keeps_pace Fixture.canvas 100%float 0.5%float 0.25%float
              Fixture.inputShape Fixture.env Fixture.video fixture_fulfils)
    with (n := 2) as (_ & Hs & _ & _ & Hr & _).
  - intros [H _]. discriminate H.
  - split; [exact Hr | exact Hs].
Defined.
